(** * Dolittle web demo: the live-capture interpretation loop

    A shallow embedding of
      - [services/geminiService.ts]  (interpretLiveFrame, interpretPetVideo,
        handleGeminiError),
      - [services/speechService.ts]  (speak, cancelSpeech, isSpeaking),
      - [views/LiveVideoView.tsx]    (the camera / identification /
        interpretation-cycle handlers of the component),
    followed by the properties of the live session that the design document
    states about them. *)

From Stdlib Require Import List NArith Bool String Ascii Lia Arith PeanoNat.
From Stdlib Require QArith.
Import ListNotations.

Set Implicit Arguments.

(* ================================================================== *)
(** * JavaScript values used by the services *)
(* ================================================================== *)

(** A JavaScript string is a sequence of UTF-16 code units. *)
Definition jsstring := list N.

(** A source literal (all literals of the program are ASCII). *)
Definition js (s : string) : jsstring :=
  map N_of_ascii (list_ascii_of_string s).

(** [a === b] on strings. *)
Fixpoint str_eqb (a b : jsstring) : bool :=
  match a, b with
  | [], [] => true
  | x :: a', y :: b' => N.eqb x y && str_eqb a' b'
  | _, _ => false
  end.

(** Truthiness of a string: every string but the empty one. *)
Definition truthy (s : jsstring) : bool :=
  match s with [] => false | _ :: _ => true end.

(** Truthiness of a [string | null | undefined] value. *)
Definition truthy_opt (o : option jsstring) : bool :=
  match o with Some s => truthy s | None => false end.

(** ECMAScript WhiteSpace and LineTerminator code points, the ones
    [String.prototype.trim] strips: TAB, LF, VT, FF, CR, SP, NBSP, U+1680,
    U+2000..U+200A, U+2028, U+2029, U+202F, U+205F, U+3000, U+FEFF. *)
Definition isWhiteSpace (c : N) : bool :=
  ((9 <=? c) && (c <=? 13) || (c =? 32) || (c =? 160) || (c =? 5760)
   || (8192 <=? c) && (c <=? 8202) || (c =? 8232) || (c =? 8233)
   || (c =? 8239) || (c =? 8287) || (c =? 12288) || (c =? 65279))%N.

Fixpoint dropWhile {A : Type} (p : A -> bool) (l : list A) : list A :=
  match l with
  | [] => []
  | x :: l' => if p x then dropWhile p l' else l
  end.

Definition trimStart (s : jsstring) : jsstring := dropWhile isWhiteSpace s.
Definition trimEnd (s : jsstring) : jsstring :=
  rev (dropWhile isWhiteSpace (rev s)).

(** [s.trim()] *)
Definition trim (s : jsstring) : jsstring := trimEnd (trimStart s).

(** [s.substring(0, n)] *)
Definition substring0 (n : nat) (s : jsstring) : jsstring := firstn n s.

(** [s.startsWith(p)] *)
Fixpoint startsWith (s p : jsstring) : bool :=
  match p, s with
  | [], _ => true
  | _ :: _, [] => false
  | y :: p', x :: s' => N.eqb x y && startsWith s' p'
  end.

(** [s.includes(p)] *)
Fixpoint includes (s p : jsstring) : bool :=
  startsWith s p || match s with [] => false | _ :: s' => includes s' p end.

(** [s.toLowerCase()], on the ASCII letters; other code units are kept
    (the messages this is applied to are matched against ASCII words). *)
Definition toLowerCase (s : jsstring) : jsstring :=
  map (fun c => if ((65 <=? c) && (c <=? 90))%N then (c + 32)%N else c) s.

(** What a [catch] clause receives: an [Error] instance with its message, or
    some other thrown value. *)
Inductive JsError : Type :=
| ErrorObj (message : jsstring)
| Thrown.

(** Completion of a call: a returned value or a thrown error (for an [async]
    function: the promise fulfilled or rejected). *)
Inductive Outcome (A : Type) : Type :=
| Return (a : A)
| Throw (e : JsError).
Arguments Return {A} a.
Arguments Throw {A} e.

(* ================================================================== *)
(** * services/geminiService.ts *)
(* ================================================================== *)

Module GeminiService.

(** How [ai.models.generateContent] settles: a response whose [text] is a
    string or not ([None]: undefined / not a string), or a rejection
    (transport failure, timeout, quota, ...). *)
Inductive GenerateContent : Type :=
| Responded (text : option jsstring)
| Failed (e : JsError).

Definition notInitialized : jsstring :=
  js "Gemini API client is not initialized. Check API_KEY configuration.".

Definition emptyResponse : jsstring :=
  js "The AI returned an empty or unexpected response. Please try a different video or prompt.".

Definition liveFallback : jsstring :=
  js "The AI didn't provide a specific observation for this moment.".

Definition handleGeminiError (error : JsError) : jsstring :=
  match error with
  | ErrorObj message =>
      if includes (toLowerCase message) (js "quota") then
        js "API request failed due to quota limits. Please check your Gemini API plan or try again later."
      else if includes (toLowerCase message) (js "api key not valid")
              || includes (toLowerCase message) (js "invalid api key") then
        js "Invalid Gemini API Key. Please ensure the API_KEY environment variable is set correctly."
      else if includes message (js "Failed to process")
              || includes message (js "The AI returned an empty") then
        message
      else js "Failed to get response from Gemini: " ++ message
  | Thrown =>
      js "An unknown error occurred while communicating with the Gemini API."
  end.

(** [typeof t !== 'string' || t.trim() === ''] *)
Definition blank (text : option jsstring) : bool :=
  match text with
  | None => true
  | Some t => str_eqb (trim t) []
  end.

(** [interpretPetVideo(videoFile, prompt)], as a function of the two things
    it awaits: reading the file as base64 ([None]: the reader failed) and
    the backend call. [ai] tells whether the client was constructed. *)
Definition interpretPetVideo (ai : bool) (fileName : jsstring)
    (fileData : option jsstring) (backend : GenerateContent)
  : Outcome jsstring :=
  if negb ai then Throw (ErrorObj notInitialized)
  else
    let body : Outcome jsstring :=
      match fileData with
      | None =>
          Throw (ErrorObj (js "Failed to process video file: " ++ fileName
                           ++ js ". Please ensure it's a valid video format."))
      | Some _ =>
          match backend with
          | Failed e => Throw e
          | Responded text =>
              match text with
              | Some t => if blank text then Throw (ErrorObj emptyResponse)
                          else Return t
              | None => Throw (ErrorObj emptyResponse)
              end
          end
      end in
    match body with
    | Return t => Return t
    | Throw e => Throw (ErrorObj (handleGeminiError e))
    end.

(** [interpretLiveFrame(imageBase64, prompt)], as a function of how the
    backend call it awaits settles. *)
Definition interpretLiveFrame (ai : bool) (backend : GenerateContent)
  : Outcome jsstring :=
  if negb ai then Throw (ErrorObj notInitialized)
  else
    match backend with
    | Responded text =>
        match text with
        | Some t => if blank text then Return liveFallback else Return t
        | None => Return liveFallback
        end
    | Failed e =>
        Return (js "Error from AI: " ++
                match e with
                | ErrorObj message => substring0 100 message
                | Thrown => js "Communication issue"
                end)
    end.

End GeminiService.

(* ================================================================== *)
(** * services/speechService.ts *)
(* ================================================================== *)

Module SpeechService.

(** A JavaScript number that the module only stores and hands on. *)
Definition number := QArith_base.Q.
Definition one : number := QArith_base.Qmake (Zpos xH) xH.

(** [SpeechSynthesisVoice]: the attributes the module reads. *)
Record Voice : Type := {
  voiceName : jsstring;
  voiceLang : jsstring;
  voiceDefault : bool
}.

(** [SpeechSynthesisUtterance] *)
Record Utterance : Type := {
  text : jsstring;
  lang : jsstring;
  rate : number;
  pitch : number;
  voice : option Voice
}.

(** [window.speechSynthesis], as far as the module uses it: the [speaking]
    attribute, the list [getVoices()] returns, and what was handed to
    [speak()] and how often [cancel()] was called. *)
Record Synth : Type := {
  speaking : bool;
  voices : list Voice;
  spoken : list Utterance;
  cancels : nat
}.

(** [synth.cancel()] *)
Definition cancel (s : Synth) : Synth :=
  {| speaking := false; voices := voices s; spoken := spoken s;
     cancels := S (cancels s) |}.

(** [synth.speak(u)] *)
Definition engineSpeak (u : Utterance) (s : Synth) : Synth :=
  {| speaking := true; voices := voices s; spoken := spoken s ++ [u];
     cancels := cancels s |}.

(** The module-level variables, and the console warnings issued. *)
Record State : Type := {
  synth : option Synth;
  utterance : option Utterance;
  warnings : list jsstring
}.

(** Module initialisation: [supported] is
    [typeof window !== 'undefined' && 'speechSynthesis' in window]. *)
Definition load (supported : bool) (engine : Synth) : State :=
  if supported then
    {| synth := Some engine;
       utterance := Some {| text := []; lang := js "en-US"; rate := one;
                            pitch := one; voice := None |};
       warnings := [] |}
  else
    {| synth := None; utterance := None;
       warnings := [js "Speech Synthesis not supported by this browser."] |}.

Definition withVoice (v : Voice) (u : Utterance) : Utterance :=
  {| text := text u; lang := lang u; rate := rate u; pitch := pitch u;
     voice := Some v |}.

(** [voices.find(voice => voice.lang === lang && voice.default)] *)
Definition defaultVoice (vs : list Voice) (l : jsstring) : option Voice :=
  find (fun v => str_eqb (voiceLang v) l && voiceDefault v) vs.

(** [voices.find(voice => voice.lang.startsWith(lang.substring(0,2)))] *)
Definition firstVoiceForLang (vs : list Voice) (l : jsstring)
  : option Voice :=
  find (fun v => startsWith (voiceLang v) (substring0 2 l)) vs.

(** The voice-selection block of [speak] (lines 43-52). *)
Definition chooseVoice (vs : list Voice) (l : jsstring) (u : Utterance)
  : Utterance :=
  if (0 <? List.length vs) && (match voice u with None => true | Some _ => false end)
  then
    match defaultVoice vs l with
    | Some d => withVoice d u
    | None =>
        match firstVoiceForLang vs l with
        | Some f => withVoice f u
        | None => u
        end
    end
  else u.

(** [speak(text, lang = 'en-US', rate = 1.0)] *)
Definition speak (t : jsstring) (l : jsstring) (r : number) (m : State)
  : State :=
  match synth m, utterance m with
  | Some s, Some u =>
      let s1 := if speaking s then cancel s else s in
      let u1 := {| text := t; lang := l; rate := r; pitch := pitch u;
                   voice := voice u |} in
      let u2 := chooseVoice (voices s1) l u1 in
      {| synth := Some (engineSpeak u2 s1); utterance := Some u2;
         warnings := warnings m |}
  | _, _ =>
      {| synth := synth m; utterance := utterance m;
         warnings := warnings m
                     ++ [js "Speech synthesis not initialized or supported."] |}
  end.

(** [cancelSpeech()] *)
Definition cancelSpeech (m : State) : State :=
  match synth m with
  | Some s =>
      if speaking s then
        {| synth := Some (cancel s); utterance := utterance m;
           warnings := warnings m |}
      else m
  | None => m
  end.

(** [isSpeaking()] *)
Definition isSpeaking (m : State) : bool :=
  match synth m with
  | Some s => speaking s
  | None => false
  end.

(** What the browser does on its own: the utterance finishes, or the list
    of installed voices is (re)published. *)
Definition utteranceEnded (m : State) : State :=
  match synth m with
  | Some s =>
      {| synth := Some {| speaking := false; voices := voices s;
                          spoken := spoken s; cancels := cancels s |};
         utterance := utterance m; warnings := warnings m |}
  | None => m
  end.

Definition voicesChanged (vs : list Voice) (m : State) : State :=
  match synth m with
  | Some s =>
      {| synth := Some {| speaking := speaking s; voices := vs;
                          spoken := spoken s; cancels := cancels s |};
         utterance := utterance m; warnings := warnings m |}
  | None => m
  end.

End SpeechService.

(* ================================================================== *)
(** * views/LiveVideoView.tsx *)
(* ================================================================== *)

(** The component is modelled as a transition system over its events.
    - State set by [useState] setters is read by the next render; the
      handlers, timer callbacks and continuations of a render keep that
      render's values (the closures of React). The refs are shared.
    - A render is committed after every event (updates made in one event are
      batched), and runs the interval effect when one of its dependencies
      changed.
    - An [await] splits a function in two: the part up to the call, and the
      continuation that runs when the awaited call settles, as an event of
      its own.
    - The store props ([addPet], [addInterpretationToPet]) and the speech
      service are collaborators: their calls are recorded in call order.
    - Unmounting the component is not an event of the model. *)

Module LiveVideoView.

Import GeminiService.

Definition PET_IDENTIFICATION_PROMPT : jsstring :=
  js "Describe what this pet is doing or feeling right now. This is a live view. Be concise and friendly.".
Definition NEW_PET_PROMPT_LIVE : jsstring :=
  js "I'm observing this pet live. What might it be doing or feeling right now? Give a short, friendly observation.".

(** The state type of [identifiedPetInfo]. *)
Record PetInfo : Type := {
  animalType : option jsstring;
  breed : option jsstring;
  description : option jsstring
}.

(** [InterpretationLogEntry['context']] of types.ts *)
Inductive EntryContext : Type :=
| UploadedVideo
| LiveInterpretation
| Identification.

(** The argument of the [addPet] prop. *)
Record NewPetData : Type := {
  newName : jsstring;
  newAnimalType : option jsstring;
  newBreed : option jsstring
}.

(** Calls of the two store props of the component, in call order. *)
Inductive StoreCall : Type :=
| AddPet (p : NewPetData)
| AddInterpretationToPet (petId : jsstring) (entryText : jsstring)
    (context : EntryContext).

(** The [useState] cells of the component. A value of this type is also
    what one render shows to the functions it creates: a handler or a timer
    callback created in a render keeps reading that render's values.
    [stream] is the index of the MediaStream object among those handed out
    by the browser. *)
Record Hooks : Type := {
  stream : option nat;
  isCameraOn : bool;
  currentLiveInterpretation : jsstring;
  interpretationLog : list jsstring;
  isLoading : bool;
  isIdentifying : bool;
  error : option jsstring;
  identifiedPetInfo : option PetInfo;
  petName : jsstring;
  currentManagingPetId : option jsstring;
  isMuted : bool
}.

Definition setStream (x : option nat) (h : Hooks) : Hooks :=
  {| stream := x; isCameraOn := isCameraOn h;
     currentLiveInterpretation := currentLiveInterpretation h;
     interpretationLog := interpretationLog h; isLoading := isLoading h;
     isIdentifying := isIdentifying h; error := error h;
     identifiedPetInfo := identifiedPetInfo h; petName := petName h;
     currentManagingPetId := currentManagingPetId h; isMuted := isMuted h |}.

Definition setIsCameraOn (x : bool) (h : Hooks) : Hooks :=
  {| stream := stream h; isCameraOn := x;
     currentLiveInterpretation := currentLiveInterpretation h;
     interpretationLog := interpretationLog h; isLoading := isLoading h;
     isIdentifying := isIdentifying h; error := error h;
     identifiedPetInfo := identifiedPetInfo h; petName := petName h;
     currentManagingPetId := currentManagingPetId h; isMuted := isMuted h |}.

Definition setCurrentLiveInterpretation (x : jsstring) (h : Hooks) : Hooks :=
  {| stream := stream h; isCameraOn := isCameraOn h;
     currentLiveInterpretation := x;
     interpretationLog := interpretationLog h; isLoading := isLoading h;
     isIdentifying := isIdentifying h; error := error h;
     identifiedPetInfo := identifiedPetInfo h; petName := petName h;
     currentManagingPetId := currentManagingPetId h; isMuted := isMuted h |}.

Definition setInterpretationLog (x : list jsstring) (h : Hooks) : Hooks :=
  {| stream := stream h; isCameraOn := isCameraOn h;
     currentLiveInterpretation := currentLiveInterpretation h;
     interpretationLog := x; isLoading := isLoading h;
     isIdentifying := isIdentifying h; error := error h;
     identifiedPetInfo := identifiedPetInfo h; petName := petName h;
     currentManagingPetId := currentManagingPetId h; isMuted := isMuted h |}.

Definition setIsLoading (x : bool) (h : Hooks) : Hooks :=
  {| stream := stream h; isCameraOn := isCameraOn h;
     currentLiveInterpretation := currentLiveInterpretation h;
     interpretationLog := interpretationLog h; isLoading := x;
     isIdentifying := isIdentifying h; error := error h;
     identifiedPetInfo := identifiedPetInfo h; petName := petName h;
     currentManagingPetId := currentManagingPetId h; isMuted := isMuted h |}.

Definition setIsIdentifying (x : bool) (h : Hooks) : Hooks :=
  {| stream := stream h; isCameraOn := isCameraOn h;
     currentLiveInterpretation := currentLiveInterpretation h;
     interpretationLog := interpretationLog h; isLoading := isLoading h;
     isIdentifying := x; error := error h;
     identifiedPetInfo := identifiedPetInfo h; petName := petName h;
     currentManagingPetId := currentManagingPetId h; isMuted := isMuted h |}.

Definition setError (x : option jsstring) (h : Hooks) : Hooks :=
  {| stream := stream h; isCameraOn := isCameraOn h;
     currentLiveInterpretation := currentLiveInterpretation h;
     interpretationLog := interpretationLog h; isLoading := isLoading h;
     isIdentifying := isIdentifying h; error := x;
     identifiedPetInfo := identifiedPetInfo h; petName := petName h;
     currentManagingPetId := currentManagingPetId h; isMuted := isMuted h |}.

Definition setIdentifiedPetInfo (x : option PetInfo) (h : Hooks) : Hooks :=
  {| stream := stream h; isCameraOn := isCameraOn h;
     currentLiveInterpretation := currentLiveInterpretation h;
     interpretationLog := interpretationLog h; isLoading := isLoading h;
     isIdentifying := isIdentifying h; error := error h;
     identifiedPetInfo := x; petName := petName h;
     currentManagingPetId := currentManagingPetId h; isMuted := isMuted h |}.

Definition setPetName (x : jsstring) (h : Hooks) : Hooks :=
  {| stream := stream h; isCameraOn := isCameraOn h;
     currentLiveInterpretation := currentLiveInterpretation h;
     interpretationLog := interpretationLog h; isLoading := isLoading h;
     isIdentifying := isIdentifying h; error := error h;
     identifiedPetInfo := identifiedPetInfo h; petName := x;
     currentManagingPetId := currentManagingPetId h; isMuted := isMuted h |}.

Definition setCurrentManagingPetId (x : option jsstring) (h : Hooks) : Hooks :=
  {| stream := stream h; isCameraOn := isCameraOn h;
     currentLiveInterpretation := currentLiveInterpretation h;
     interpretationLog := interpretationLog h; isLoading := isLoading h;
     isIdentifying := isIdentifying h; error := error h;
     identifiedPetInfo := identifiedPetInfo h; petName := petName h;
     currentManagingPetId := x; isMuted := isMuted h |}.

Definition setIsMuted (x : bool) (h : Hooks) : Hooks :=
  {| stream := stream h; isCameraOn := isCameraOn h;
     currentLiveInterpretation := currentLiveInterpretation h;
     interpretationLog := interpretationLog h; isLoading := isLoading h;
     isIdentifying := isIdentifying h; error := error h;
     identifiedPetInfo := identifiedPetInfo h; petName := petName h;
     currentManagingPetId := currentManagingPetId h; isMuted := x |}.

(** A call of [interpretLiveFrame] that has not settled: the render whose
    timer callback made it, and its arguments. (Without a client the call
    rejects without a backend round trip; it settles at its own event all
    the same.) *)
Record LiveCall : Type := {
  callRender : Hooks;
  callFrame : jsstring;
  callPrompt : jsstring
}.

(** The component together with what it acts on.
    - [interpretationIntervalRef], [srcObject]: the two refs ([useRef]
      cells are shared by all renders); [srcObject] is
      [videoRef.current.srcObject].
    - [timers]: the intervals the browser holds, each with the render whose
      callback it runs; [nextTimer]: the next id [setInterval] returns.
    - [liveCalls], [cameraCalls], [identifyCalls]: the awaited calls
      ([interpretLiveFrame], [getUserMedia], [identifyPetFromFrame]) that
      have not settled; a [getUserMedia] call keeps the render of the
      [startCamera] that made it.
    - [mediaStreams]: every MediaStream handed out, as the list of its
      tracks, [true] for a live track.
    - [speech]: the speech module; [speakCalls]: the texts passed to
      [speak]; [storeCalls]: the calls of the store props.
    - [ai]: whether geminiService constructed its client.
    - [ticks]: how many times a timer callback has run. *)
Record World : Type := {
  hooks : Hooks;
  interpretationIntervalRef : option nat;
  srcObject : option nat;
  timers : list (nat * Hooks);
  nextTimer : nat;
  liveCalls : list (nat * LiveCall);
  cameraCalls : list (nat * Hooks);
  identifyCalls : list nat;
  nextCall : nat;
  mediaStreams : list (list bool);
  speech : SpeechService.State;
  speakCalls : list jsstring;
  storeCalls : list StoreCall;
  ai : bool;
  ticks : nat
}.

(** Field updates of [World]. *)
Definition withHooks (x : Hooks) (w : World) : World :=
  {| hooks := x; interpretationIntervalRef := interpretationIntervalRef w;
     srcObject := srcObject w; timers := timers w;
     nextTimer := nextTimer w; liveCalls := liveCalls w;
     cameraCalls := cameraCalls w; identifyCalls := identifyCalls w;
     nextCall := nextCall w; mediaStreams := mediaStreams w;
     speech := speech w; speakCalls := speakCalls w;
     storeCalls := storeCalls w; ai := ai w; ticks := ticks w |}.

Definition withIntervalRef (x : option nat) (w : World) : World :=
  {| hooks := hooks w; interpretationIntervalRef := x;
     srcObject := srcObject w; timers := timers w;
     nextTimer := nextTimer w; liveCalls := liveCalls w;
     cameraCalls := cameraCalls w; identifyCalls := identifyCalls w;
     nextCall := nextCall w; mediaStreams := mediaStreams w;
     speech := speech w; speakCalls := speakCalls w;
     storeCalls := storeCalls w; ai := ai w; ticks := ticks w |}.

Definition withSrcObject (x : option nat) (w : World) : World :=
  {| hooks := hooks w;
     interpretationIntervalRef := interpretationIntervalRef w;
     srcObject := x; timers := timers w; nextTimer := nextTimer w;
     liveCalls := liveCalls w; cameraCalls := cameraCalls w;
     identifyCalls := identifyCalls w; nextCall := nextCall w;
     mediaStreams := mediaStreams w; speech := speech w;
     speakCalls := speakCalls w; storeCalls := storeCalls w; ai := ai w;
     ticks := ticks w |}.

Definition withTimers (x : list (nat * Hooks)) (w : World) : World :=
  {| hooks := hooks w;
     interpretationIntervalRef := interpretationIntervalRef w;
     srcObject := srcObject w; timers := x; nextTimer := nextTimer w;
     liveCalls := liveCalls w; cameraCalls := cameraCalls w;
     identifyCalls := identifyCalls w; nextCall := nextCall w;
     mediaStreams := mediaStreams w; speech := speech w;
     speakCalls := speakCalls w; storeCalls := storeCalls w; ai := ai w;
     ticks := ticks w |}.

Definition withNextTimer (x : nat) (w : World) : World :=
  {| hooks := hooks w;
     interpretationIntervalRef := interpretationIntervalRef w;
     srcObject := srcObject w; timers := timers w; nextTimer := x;
     liveCalls := liveCalls w; cameraCalls := cameraCalls w;
     identifyCalls := identifyCalls w; nextCall := nextCall w;
     mediaStreams := mediaStreams w; speech := speech w;
     speakCalls := speakCalls w; storeCalls := storeCalls w; ai := ai w;
     ticks := ticks w |}.

Definition withLiveCalls (x : list (nat * LiveCall)) (w : World) : World :=
  {| hooks := hooks w;
     interpretationIntervalRef := interpretationIntervalRef w;
     srcObject := srcObject w; timers := timers w;
     nextTimer := nextTimer w; liveCalls := x;
     cameraCalls := cameraCalls w; identifyCalls := identifyCalls w;
     nextCall := nextCall w; mediaStreams := mediaStreams w;
     speech := speech w; speakCalls := speakCalls w;
     storeCalls := storeCalls w; ai := ai w; ticks := ticks w |}.

Definition withCameraCalls (x : list (nat * Hooks)) (w : World) : World :=
  {| hooks := hooks w;
     interpretationIntervalRef := interpretationIntervalRef w;
     srcObject := srcObject w; timers := timers w;
     nextTimer := nextTimer w; liveCalls := liveCalls w; cameraCalls := x;
     identifyCalls := identifyCalls w; nextCall := nextCall w;
     mediaStreams := mediaStreams w; speech := speech w;
     speakCalls := speakCalls w; storeCalls := storeCalls w; ai := ai w;
     ticks := ticks w |}.

Definition withIdentifyCalls (x : list nat) (w : World) : World :=
  {| hooks := hooks w;
     interpretationIntervalRef := interpretationIntervalRef w;
     srcObject := srcObject w; timers := timers w;
     nextTimer := nextTimer w; liveCalls := liveCalls w;
     cameraCalls := cameraCalls w; identifyCalls := x;
     nextCall := nextCall w; mediaStreams := mediaStreams w;
     speech := speech w; speakCalls := speakCalls w;
     storeCalls := storeCalls w; ai := ai w; ticks := ticks w |}.

Definition withNextCall (x : nat) (w : World) : World :=
  {| hooks := hooks w;
     interpretationIntervalRef := interpretationIntervalRef w;
     srcObject := srcObject w; timers := timers w;
     nextTimer := nextTimer w; liveCalls := liveCalls w;
     cameraCalls := cameraCalls w; identifyCalls := identifyCalls w;
     nextCall := x; mediaStreams := mediaStreams w; speech := speech w;
     speakCalls := speakCalls w; storeCalls := storeCalls w; ai := ai w;
     ticks := ticks w |}.

Definition withMediaStreams (x : list (list bool)) (w : World) : World :=
  {| hooks := hooks w;
     interpretationIntervalRef := interpretationIntervalRef w;
     srcObject := srcObject w; timers := timers w;
     nextTimer := nextTimer w; liveCalls := liveCalls w;
     cameraCalls := cameraCalls w; identifyCalls := identifyCalls w;
     nextCall := nextCall w; mediaStreams := x; speech := speech w;
     speakCalls := speakCalls w; storeCalls := storeCalls w; ai := ai w;
     ticks := ticks w |}.

Definition withSpeech (x : SpeechService.State) (w : World) : World :=
  {| hooks := hooks w;
     interpretationIntervalRef := interpretationIntervalRef w;
     srcObject := srcObject w; timers := timers w;
     nextTimer := nextTimer w; liveCalls := liveCalls w;
     cameraCalls := cameraCalls w; identifyCalls := identifyCalls w;
     nextCall := nextCall w; mediaStreams := mediaStreams w; speech := x;
     speakCalls := speakCalls w; storeCalls := storeCalls w; ai := ai w;
     ticks := ticks w |}.

Definition withSpeakCalls (x : list jsstring) (w : World) : World :=
  {| hooks := hooks w;
     interpretationIntervalRef := interpretationIntervalRef w;
     srcObject := srcObject w; timers := timers w;
     nextTimer := nextTimer w; liveCalls := liveCalls w;
     cameraCalls := cameraCalls w; identifyCalls := identifyCalls w;
     nextCall := nextCall w; mediaStreams := mediaStreams w;
     speech := speech w; speakCalls := x; storeCalls := storeCalls w;
     ai := ai w; ticks := ticks w |}.

Definition withStoreCalls (x : list StoreCall) (w : World) : World :=
  {| hooks := hooks w;
     interpretationIntervalRef := interpretationIntervalRef w;
     srcObject := srcObject w; timers := timers w;
     nextTimer := nextTimer w; liveCalls := liveCalls w;
     cameraCalls := cameraCalls w; identifyCalls := identifyCalls w;
     nextCall := nextCall w; mediaStreams := mediaStreams w;
     speech := speech w; speakCalls := speakCalls w; storeCalls := x;
     ai := ai w; ticks := ticks w |}.

Definition withTicks (x : nat) (w : World) : World :=
  {| hooks := hooks w;
     interpretationIntervalRef := interpretationIntervalRef w;
     srcObject := srcObject w; timers := timers w;
     nextTimer := nextTimer w; liveCalls := liveCalls w;
     cameraCalls := cameraCalls w; identifyCalls := identifyCalls w;
     nextCall := nextCall w; mediaStreams := mediaStreams w;
     speech := speech w; speakCalls := speakCalls w;
     storeCalls := storeCalls w; ai := ai w; ticks := x |}.

(** ** Actions on the world *)

Definition Action : Type := World -> World.
Definition skip : Action := fun w => w.
Definition seq (a b : Action) : Action := fun w => b (a w).
Notation "a ;; b" := (seq a b) (at level 61, right associativity).

(** A [useState] setter called with a value. *)
Definition set (f : Hooks -> Hooks) : Action :=
  fun w => withHooks (f (hooks w)) w.

Definition isSome {A : Type} (o : option A) : bool :=
  match o with Some _ => true | None => false end.

Fixpoint lookup {A : Type} (k : nat) (l : list (nat * A)) : option A :=
  match l with
  | [] => None
  | (k', a) :: l' => if k' =? k then Some a else lookup k l'
  end.

Definition remove {A : Type} (k : nat) (l : list (nat * A))
  : list (nat * A) :=
  filter (fun p => negb (fst p =? k)) l.

(** [clearInterval(t)] *)
Definition clearInterval (t : nat) : Action :=
  fun w => withTimers (remove t (timers w)) w.

(** [if (ref.current) clearInterval(ref.current)] *)
Definition clearIntervalRef : Action :=
  fun w => match interpretationIntervalRef w with
           | Some t => clearInterval t w
           | None => w
           end.

(** [if (ref.current) { clearInterval(ref.current); ref.current = null }] *)
Definition clearAndResetIntervalRef : Action :=
  fun w => match interpretationIntervalRef w with
           | Some t => withIntervalRef None (clearInterval t w)
           | None => w
           end.

(** [ref.current = setInterval(callback, LIVE_INTERPRETATION_INTERVAL)],
    [r] being the render the callback was created in. *)
Definition setIntervalRef (r : Hooks) : Action :=
  fun w => withIntervalRef (Some (nextTimer w))
             (withNextTimer (S (nextTimer w))
                (withTimers (timers w ++ [(nextTimer w, r)]) w)).

(** The store props and the speech service, as called by the component. *)
Definition addPet (p : NewPetData) : Action :=
  fun w => withStoreCalls (storeCalls w ++ [AddPet p]) w.

Definition addInterpretationToPet (petId entryText : jsstring)
    (context : EntryContext) : Action :=
  fun w => withStoreCalls
             (storeCalls w ++ [AddInterpretationToPet petId entryText context])
             w.

(** [speak(text)]: language and rate take their defaults. *)
Definition speak (t : jsstring) : Action :=
  fun w => withSpeakCalls (speakCalls w ++ [t])
             (withSpeech (SpeechService.speak t (js "en-US")
                            SpeechService.one (speech w)) w).

Definition cancelSpeech : Action :=
  fun w => withSpeech (SpeechService.cancelSpeech (speech w)) w.

(** [stream.getTracks().forEach(track => track.stop())] on stream [sid]. *)
Fixpoint stopTracks (sid : nat) (ms : list (list bool)) : list (list bool) :=
  match ms, sid with
  | [], _ => []
  | tr :: ms', O => map (fun _ => false) tr :: ms'
  | tr :: ms', S n => tr :: stopTracks n ms'
  end.

(** ** The functions of the component *)

(** [captureFrameAsBase64()] in render [r]. The two refs are set while the
    component is mounted; [canvas] is what drawing the current video frame
    and [toDataURL(...).split(',')[1]] give, [None] when the canvas has no
    2d context. *)
Definition captureFrameAsBase64 (r : Hooks) (canvas : option jsstring)
  : option jsstring :=
  if isCameraOn r then canvas else None.

(** [startLiveInterpretation()] of render [r]. *)
Definition startLiveInterpretation (r : Hooks) : Action :=
  clearIntervalRef ;;
  if negb (truthy_opt (currentManagingPetId r))
     && negb (isSome (identifiedPetInfo r))
  then skip
  else setIntervalRef r.

(** The interval callback created by [startLiveInterpretation] of render
    [r], up to its [await]. *)
Definition tick (r : Hooks) (canvas : option jsstring) : Action :=
  fun w =>
    if negb (isCameraOn r) || negb (isSome (srcObject w)) then
      clearIntervalRef w
    else
      match captureFrameAsBase64 r canvas with
      | Some frame =>
          if truthy frame then
            let prompt := if truthy_opt (currentManagingPetId r)
                          then PET_IDENTIFICATION_PROMPT
                          else NEW_PET_PROMPT_LIVE in
            let w1 := set (setIsLoading true) w in
            withNextCall (S (nextCall w1))
              (withLiveCalls
                 (liveCalls w1 ++ [(nextCall w1,
                    {| callRender := r; callFrame := frame;
                       callPrompt := prompt |})]) w1)
          else w
      | None => w
      end.

(** [prevLog => [interpretationText, ...prevLog.slice(0, 99)]] *)
Definition pushLog (interpretationText : jsstring) (prevLog : list jsstring)
  : list jsstring :=
  interpretationText :: firstn 99 prevLog.

(** The rest of the interval callback, once [interpretLiveFrame] settled
    with [res]: the remainder of [try], or [catch], then [finally]. *)
Definition tickSettled (r : Hooks) (res : Outcome jsstring) : Action :=
  match res with
  | Return interpretationText =>
      set (setCurrentLiveInterpretation interpretationText) ;;
      (fun w => set (setInterpretationLog
                       (pushLog interpretationText
                          (interpretationLog (hooks w)))) w) ;;
      match currentManagingPetId r with
      | Some petId =>
          if truthy petId
          then addInterpretationToPet petId interpretationText
                 LiveInterpretation
          else skip
      | None => skip
      end ;;
      (if negb (isMuted r) then speak interpretationText else skip)
  | Throw err =>
      let message := match err with
                     | ErrorObj m => m
                     | Thrown => js "Error during live interpretation."
                     end in
      set (setCurrentLiveInterpretation message) ;;
      set (setError (Some message))
  end ;;
  set (setIsLoading false).

(** [startCamera()] of render [r] up to [await getUserMedia(...)];
    [supported] is [navigator.mediaDevices && ...getUserMedia]. *)
Definition startCamera (r : Hooks) (supported : bool) : Action :=
  set (setError None) ;;
  set (setCurrentLiveInterpretation []) ;;
  set (setInterpretationLog []) ;;
  if supported then
    fun w => withNextCall (S (nextCall w))
               (withCameraCalls (cameraCalls w ++ [(nextCall w, r)]) w)
  else
    set (setError
           (Some (js "Camera access is not supported by your browser."))).

(** [startCamera()] of render [r] once [getUserMedia] settled: with a
    stream of [n] tracks, or with a rejection. *)
Definition startCameraSettled (r : Hooks) (result : option nat) : Action :=
  match result with
  | Some n =>
      fun w =>
        let mediaStream := List.length (mediaStreams w) in
        (set (setStream (Some mediaStream)) ;;
         withSrcObject (Some mediaStream) ;;
         set (setIsCameraOn true) ;;
         (if negb (truthy_opt (currentManagingPetId r)) then skip
          else startLiveInterpretation r))
          (withMediaStreams (mediaStreams w ++ [repeat true n]) w)
  | None =>
      set (setError
             (Some (js "Could not access camera. Please ensure permission is granted and no other app is using it."))) ;;
      set (setIsCameraOn false)
  end.

(** [stopCamera()] of render [r]. *)
Definition stopCamera (r : Hooks) : Action :=
  match stream r with
  | Some sid => fun w => withMediaStreams (stopTracks sid (mediaStreams w)) w
  | None => skip
  end ;;
  set (setStream None) ;;
  set (setIsCameraOn false) ;;
  clearAndResetIntervalRef ;;
  cancelSpeech.

(** [handleIdentifyPet()] of render [r] up to its [await]. *)
Definition handleIdentifyPet (r : Hooks) (canvas : option jsstring)
  : Action :=
  set (setError None) ;;
  set (setIdentifiedPetInfo None) ;;
  match captureFrameAsBase64 r canvas with
  | Some (_ :: _) =>
      set (setIsIdentifying true) ;;
      fun w => withNextCall (S (nextCall w))
                 (withIdentifyCalls (identifyCalls w ++ [nextCall w]) w)
  | _ => set (setError (Some (js "Could not capture frame from video.")))
  end.

(** [handleIdentifyPet()] once [identifyPetFromFrame] settled. *)
Definition handleIdentifyPetSettled (res : Outcome PetInfo) : Action :=
  match res with
  | Return result =>
      set (setIdentifiedPetInfo (Some result)) ;;
      match animalType result with
      | Some a =>
          if truthy a && negb (str_eqb a (js "Unknown"))
          then set (setPetName a)
          else set (setPetName [])
      | None => set (setPetName [])
      end
  | Throw err =>
      set (setError (Some match err with
                          | ErrorObj m => m
                          | Thrown => js "Failed to identify pet."
                          end))
  end ;;
  set (setIsIdentifying false).

(** The text of the identification entry (the template literal of
    [handleSaveIdentifiedPet]). *)
Definition identificationText (info : PetInfo) : jsstring :=
  js "Identified as "
  ++ (if truthy_opt (animalType info)
      then match animalType info with Some a => a | None => [] end
      else js "Unknown type")
  ++ (match breed info with
      | Some b => if truthy b then js " (" ++ b ++ js ")" else []
      | None => []
      end)
  ++ js ". Description: "
  ++ match description info with Some d => d | None => js "undefined" end.

Definition nameRequired : jsstring := js "Please provide a name for your pet.".

(** [handleSaveIdentifiedPet()] of render [r]; [newId] is the id of the pet
    that the [addPet] prop returns. *)
Definition handleSaveIdentifiedPet (r : Hooks) (newId : jsstring) : Action :=
  match identifiedPetInfo r with
  | Some info =>
      if negb (truthy (trim (petName r))) then set (setError (Some nameRequired))
      else
        set (setError None) ;;
        addPet {| newName := trim (petName r);
                  newAnimalType := animalType info;
                  newBreed := breed info |} ;;
        addInterpretationToPet newId (identificationText info)
          Identification ;;
        set (setCurrentManagingPetId (Some newId)) ;;
        set (setIdentifiedPetInfo None) ;;
        set (setPetName []) ;;
        startLiveInterpretation r
  | None => set (setError (Some nameRequired))
  end.

(** [selectExistingPet(petId)] of render [r]. *)
Definition selectExistingPet (r : Hooks) (petId : jsstring) : Action :=
  set (setCurrentManagingPetId (Some petId)) ;;
  set (setIdentifiedPetInfo None) ;;
  set (setPetName []) ;;
  set (setError None) ;;
  set (setInterpretationLog []) ;;
  set (setCurrentLiveInterpretation []) ;;
  (if isCameraOn r then startLiveInterpretation r else skip).

(** The [onChange] of the pet selector. *)
Definition onSelectChange (r : Hooks) (value : jsstring) : Action :=
  if truthy value then selectExistingPet r value
  else set (setCurrentManagingPetId None).

(** The second [useEffect] of the component: its body in render [r], and
    the clean-up that runs before the next body. *)
Definition liveEffect (r : Hooks) : Action :=
  if isCameraOn r
     && (truthy_opt (currentManagingPetId r) || isSome (identifiedPetInfo r))
  then startLiveInterpretation r
  else clearAndResetIntervalRef.

Definition liveEffectCleanup : Action := clearIntervalRef.

(** ** Events, renders and runs *)

(** What happens to the mounted component: the user acts on a control, a
    timer fires, an awaited call settles, or the speech engine changes
    state. [ClickSave newId] carries the id that [addPet] returns;
    [TimerFired t canvas] and [ClickIdentify canvas] carry what the canvas
    yields for the current video frame. *)
Inductive Event : Type :=
| ClickStartCamera (supported : bool)
| CameraSettled (call : nat) (result : option nat)
| ClickStopCamera
| ClickMute
| ClickIdentify (canvas : option jsstring)
| IdentifySettled (call : nat) (res : Outcome PetInfo)
| TypePetName (value : jsstring)
| ClickSave (newId : jsstring)
| SelectPet (value : jsstring)
| TimerFired (t : nat) (canvas : option jsstring)
| LiveSettled (call : nat) (backend : GenerateContent)
| UtteranceEnded
| VoicesChanged (vs : list SpeechService.Voice).

(** The handler of an event. Controls run the functions of the latest
    render; a timer callback and the continuation of an awaited call run in
    the render that created them. An event for a timer that was cleared or
    a call that is not pending does nothing. *)
Definition handle (e : Event) : Action :=
  fun w =>
    let r := hooks w in
    match e with
    | ClickStartCamera supported => startCamera r supported w
    | CameraSettled call result =>
        match lookup call (cameraCalls w) with
        | Some r0 =>
            startCameraSettled r0 result
              (withCameraCalls (remove call (cameraCalls w)) w)
        | None => w
        end
    | ClickStopCamera => stopCamera r w
    | ClickMute => set (setIsMuted (negb (isMuted r))) w
    | ClickIdentify canvas => handleIdentifyPet r canvas w
    | IdentifySettled call res =>
        if existsb (Nat.eqb call) (identifyCalls w) then
          handleIdentifyPetSettled res
            (withIdentifyCalls
               (filter (fun c => negb (c =? call)) (identifyCalls w)) w)
        else w
    | TypePetName value => set (setPetName value) w
    | ClickSave newId => handleSaveIdentifiedPet r newId w
    | SelectPet value => onSelectChange r value w
    | TimerFired t canvas =>
        match lookup t (timers w) with
        | Some r0 => tick r0 canvas (withTicks (S (ticks w)) w)
        | None => w
        end
    | LiveSettled call backend =>
        match lookup call (liveCalls w) with
        | Some c =>
            tickSettled (callRender c) (interpretLiveFrame (ai w) backend)
              (withLiveCalls (remove call (liveCalls w)) w)
        | None => w
        end
    | UtteranceEnded => withSpeech (SpeechService.utteranceEnded (speech w)) w
    | VoicesChanged vs => withSpeech (SpeechService.voicesChanged vs (speech w)) w
    end.

Definition opt_eqb {A : Type} (eqb : A -> A -> bool) (a b : option A) : bool :=
  match a, b with
  | Some x, Some y => eqb x y
  | None, None => true
  | _, _ => false
  end.

Definition info_eqb (a b : PetInfo) : bool :=
  opt_eqb str_eqb (animalType a) (animalType b)
  && opt_eqb str_eqb (breed a) (breed b)
  && opt_eqb str_eqb (description a) (description b).

(** Whether the dependencies of the effect are the same in two renders:
    [isCameraOn], [currentManagingPetId], [identifiedPetInfo] and
    [startLiveInterpretation], itself recreated when one of those, [isMuted]
    or the [addInterpretationToPet] prop changes. The prop is compared by
    [commit] below; the info object is compared by content. *)
Definition sameDeps (a b : Hooks) : bool :=
  Bool.eqb (isCameraOn a) (isCameraOn b)
  && opt_eqb str_eqb (currentManagingPetId a) (currentManagingPetId b)
  && opt_eqb info_eqb (identifiedPetInfo a) (identifiedPetInfo b)
  && Bool.eqb (isMuted a) (isMuted b).

(** The render that follows a handler: when a dependency changed, the
    clean-up of the effect and then its body in the new render. The parent
    recreates the store props whenever one of them was called. *)
Definition commit (before : World) : Action :=
  fun w =>
    if sameDeps (hooks before) (hooks w)
       && (List.length (storeCalls before) =? List.length (storeCalls w))
    then w
    else (liveEffectCleanup ;; liveEffect (hooks w)) w.

Definition step (e : Event) (w : World) : World := commit w (handle e w).

Definition run (es : list Event) (w : World) : World :=
  fold_left (fun w e => step e w) es w.

(** Whether the page lets the event happen: the control is rendered and
    not disabled (the conditions of the JSX), the timer is live, the call
    is pending. *)
Definition enabled (e : Event) (w : World) : bool :=
  let h := hooks w in
  match e with
  | ClickStartCamera _ => negb (isCameraOn h)
  | ClickStopCamera => isCameraOn h
  | ClickMute => isCameraOn h
  | ClickIdentify _ =>
      isCameraOn h && negb (truthy_opt (currentManagingPetId h))
      && negb (isSome (identifiedPetInfo h)) && negb (isIdentifying h)
  | TypePetName _ =>
      isSome (identifiedPetInfo h) && negb (truthy_opt (currentManagingPetId h))
  | ClickSave newId =>
      isSome (identifiedPetInfo h) && negb (truthy_opt (currentManagingPetId h))
      && truthy newId
  | SelectPet _ => negb (isCameraOn h)
  | CameraSettled call _ => isSome (lookup call (cameraCalls w))
  | IdentifySettled call _ => existsb (Nat.eqb call) (identifyCalls w)
  | TimerFired t _ => isSome (lookup t (timers w))
  | LiveSettled call _ => isSome (lookup call (liveCalls w))
  | UtteranceEnded => SpeechService.isSpeaking (speech w)
  | VoicesChanged _ => true
  end.

(** A run in which every event is enabled when it happens. *)
Fixpoint runEnabled (es : list Event) (w : World) : option World :=
  match es with
  | [] => Some w
  | e :: es' => if enabled e w then runEnabled es' (step e w) else None
  end.

(** The component after its first render; the effect body finds the camera
    off and no timer to clear. *)
Definition mount (hasClient : bool) (activePetId : option jsstring)
    (sp : SpeechService.State) : World :=
  {| hooks := {| stream := None; isCameraOn := false;
                 currentLiveInterpretation := []; interpretationLog := [];
                 isLoading := false; isIdentifying := false; error := None;
                 identifiedPetInfo := None; petName := [];
                 currentManagingPetId := activePetId; isMuted := false |};
     interpretationIntervalRef := None; srcObject := None;
     timers := []; nextTimer := 1;
     liveCalls := []; cameraCalls := []; identifyCalls := []; nextCall := 0;
     mediaStreams := []; speech := sp; speakCalls := []; storeCalls := [];
     ai := hasClient; ticks := 0 |}.

(** ** The session states of the design document *)

Inductive Phase : Type :=
| Idle
| Streaming
| Identifying
| AwaitingConfirmation
| Tracking.

(** The session state a render is in: Idle with the camera off; with the
    camera on, Tracking when a subject is bound, AwaitingConfirmation when
    an identification waits for its name, Identifying while the
    identification call is pending, Streaming otherwise. *)
Definition phase (h : Hooks) : Phase :=
  if negb (isCameraOn h) then Idle
  else if truthy_opt (currentManagingPetId h) then Tracking
  else if isSome (identifiedPetInfo h) then AwaitingConfirmation
  else if isIdentifying h then Identifying
  else Streaming.

End LiveVideoView.

(* ================================================================== *)
(** * Invariants of the live session *)
(* ================================================================== *)

Module Invariant.

Import LiveVideoView.

(** Every interval the browser holds is the one the ref points to. *)
Definition timerOwned (w : World) : Prop :=
  timers w = []
  \/ exists t r, timers w = [(t, r)] /\ interpretationIntervalRef w = Some t.

(** After a render with the camera off no interval is left. *)
Definition cameraOffNoTimer (w : World) : Prop :=
  isCameraOn (hooks w) = false -> timers w = [].

(** With the camera on, the component holds one of the streams handed out. *)
Definition cameraOnHasStream (w : World) : Prop :=
  isCameraOn (hooks w) = true ->
  exists sid, stream (hooks w) = Some sid /\ sid < List.length (mediaStreams w).

Definition logBounded (w : World) : Prop :=
  List.length (interpretationLog (hooks w)) <= 100.

Record Inv (w : World) : Prop := {
  inv_owned : timerOwned w;
  inv_off : cameraOffNoTimer w;
  inv_stream : cameraOnHasStream w;
  inv_log : logBounded w
}.

(** What a handler does to the interval: it leaves it alone, it clears it,
    or it replaces it by a new one; the last only when the handler leaves
    the camera on or called the store. *)
Definition timersAfter (w w' : World) : Prop :=
  (timers w' = timers w
   /\ interpretationIntervalRef w' = interpretationIntervalRef w)
  \/ timers w' = []
  \/ (timerOwned w'
      /\ (isCameraOn (hooks w') = true
          \/ List.length (storeCalls w') = S (S (List.length (storeCalls w))))).


End Invariant.

(* ================================================================== *)
(** * Sample data for the scenarios *)
(* ================================================================== *)

Module Scenario.

Import SpeechService.

(** An engine that lists no voice, and one that lists an English voice,
    flagged default, and a Spanish one. *)
Definition silentEngine : Synth :=
  {| speaking := false; voices := []; spoken := []; cancels := 0 |}.

Definition enUS : Voice :=
  {| voiceName := js "Samantha"; voiceLang := js "en-US";
     voiceDefault := true |}.
Definition esES : Voice :=
  {| voiceName := js "Monica"; voiceLang := js "es-ES";
     voiceDefault := false |}.
Definition twoVoices : Synth :=
  {| speaking := false; voices := [enUS; esES]; spoken := []; cancels := 0 |}.

(** An engine that lists the Spanish voice first and then two English
    voices, a British one before the American one. *)
Definition enGB : Voice :=
  {| voiceName := js "Daniel"; voiceLang := js "en-GB";
     voiceDefault := false |}.
Definition threeVoices : Synth :=
  {| speaking := false; voices := [esES; enGB; enUS]; spoken := [];
     cancels := 0 |}.

(** The page after its first render, with a backend client and a speech
    engine, and no pet chosen by the menu. *)
Definition page : LiveVideoView.World :=
  LiveVideoView.mount true None (load true twoVoices).

(** The base64 part of a captured frame. *)
Definition frame : jsstring := js "/9j/4AAQSkZJRgABAQ==".

(** The user picks the stored pet "p1" and starts the camera; the camera
    request (call 0) settles with a stream of one track. The handler starts
    interval 1 and the render that follows replaces it by interval 2. *)
Definition trackP1 : list LiveVideoView.Event :=
  [LiveVideoView.SelectPet (js "p1");
   LiveVideoView.ClickStartCamera true;
   LiveVideoView.CameraSettled 0 (Some 1)].

Definition dog : LiveVideoView.PetInfo :=
  {| LiveVideoView.animalType := Some (js "Dog");
     LiveVideoView.breed := Some (js "Unknown");
     LiveVideoView.description := Some (js "A dog is looking at the camera.") |}.

(** The user starts the camera, asks for an identification (call 1), which
    yields [dog], and types the name "Rex". *)
Definition identifyRex : list LiveVideoView.Event :=
  [LiveVideoView.ClickStartCamera true;
   LiveVideoView.CameraSettled 0 (Some 1);
   LiveVideoView.ClickIdentify (Some frame);
   LiveVideoView.IdentifySettled 1 (Return dog);
   LiveVideoView.TypePetName (js "Rex")].

(** [n] full cycle ticks in Tracking: interval [timer] fires and its call
    [call] settles with a text. The store call of each tick makes the next
    render replace the interval, so the ids advance together. *)
Fixpoint cycles (n timer call : nat) : list LiveVideoView.Event :=
  match n with
  | O => []
  | S n' =>
      LiveVideoView.TimerFired timer (Some frame)
      :: LiveVideoView.LiveSettled call
           (GeminiService.Responded (Some (js "Resting.")))
      :: cycles n' (S timer) (S call)
  end.

End Scenario.

(* ================================================================== *)
(** * services/speechService.ts, continued *)
(* ================================================================== *)

Module SpeechControl.

Import SpeechService.

(** [setSpeechLang(lang)] *)
Definition setSpeechLang (l : jsstring) (m : State) : State :=
  match utterance m with
  | Some u =>
      {| synth := synth m;
         utterance := Some {| text := text u; lang := l; rate := rate u;
                              pitch := pitch u; voice := voice u |};
         warnings := warnings m |}
  | None => m
  end.

(** One thing that happens to the module: a call of one of its functions,
    or a change of the engine. *)
Inductive Op : Type :=
| OpSpeak (t l : jsstring) (r : number)
| OpCancelSpeech
| OpSetSpeechLang (l : jsstring)
| OpUtteranceEnded
| OpVoicesChanged (vs : list Voice).

Definition applyOp (o : Op) (m : State) : State :=
  match o with
  | OpSpeak t l r => speak t l r m
  | OpCancelSpeech => cancelSpeech m
  | OpSetSpeechLang l => setSpeechLang l m
  | OpUtteranceEnded => utteranceEnded m
  | OpVoicesChanged vs => voicesChanged vs m
  end.

Definition applyOps (os : list Op) (m : State) : State :=
  fold_left (fun m o => applyOp o m) os m.

(** The voice of the shared utterance, if the module has one. *)
Definition currentVoice (m : State) : option Voice :=
  match utterance m with
  | Some u => voice u
  | None => None
  end.

End SpeechControl.

(* ================================================================== *)
(** * types.ts and services/localStorageService.ts *)
(* ================================================================== *)

Module LocalStorageService.

(** [InterpretationLogEntry] of types.ts ([entryId] is its [id]). *)
Record InterpretationLogEntry : Type := {
  entryId : jsstring;
  timestamp : jsstring;
  text : jsstring;
  context : LiveVideoView.EntryContext;
  videoFileName : option jsstring
}.

(** [Pet] of types.ts ([petId] is its [id]). *)
Record Pet : Type := {
  petId : jsstring;
  name : jsstring;
  animalType : option jsstring;
  breed : option jsstring;
  thumbnailUrl : option jsstring;
  interpretations : list InterpretationLogEntry;
  createdAt : jsstring
}.

(** What [localStorage] holds under [PETS_STORAGE_KEY], by what reading it
    gives: no item (or the empty string), a text that [JSON.parse] rejects,
    or the JSON text of an array of pets, which [JSON.parse] turns back into
    the array that [JSON.stringify] was given. *)
Inductive Item : Type :=
| NoItem
| Garbled
| PetsJson (pets : list Pet).

(** The storage: the item, and whether [setItem] succeeds (it throws when
    the quota is exceeded or storage is disabled). *)
Record LocalStorage : Type := {
  item : Item;
  writable : bool
}.

(** [loadPets()]: the parse error is caught and logged. *)
Definition loadPets (ls : LocalStorage) : list Pet :=
  match item ls with
  | PetsJson pets => pets
  | NoItem => []
  | Garbled => []
  end.

(** [savePets(pets)]: the error of [setItem] is caught and logged. *)
Definition savePets (pets : list Pet) (ls : LocalStorage) : LocalStorage :=
  if writable ls then {| item := PetsJson pets; writable := true |} else ls.



(** [getPetById(petId)] *)
Definition getPetById (i : jsstring) (ls : LocalStorage) : option Pet :=
  find (fun p => str_eqb (petId p) i) (loadPets ls).

(** No pet of [pets] has the id [i]. *)
Definition unused (i : jsstring) (pets : list Pet) : bool :=
  forallb (fun p => negb (str_eqb (petId p) i)) pets.

(** [deletePetFromStorage(petId)] *)
Definition deletePetFromStorage (i : jsstring) (ls : LocalStorage)
  : LocalStorage :=
  let pets := loadPets ls in
  let updatedPets := filter (fun p => negb (str_eqb (petId p) i)) pets in
  savePets updatedPets ls.

End LocalStorageService.

(* ================================================================== *)
(** * App.tsx *)
(* ================================================================== *)

(** The root component: the [pets] state and the store props it hands to the
    views. A prop created in a render computes from the [pets] of that
    render; [setPets] takes effect at the next render. *)

Module App.

Import LocalStorageService.

(** The argument of [addPet]. *)
Record NewPet : Type := {
  newPetName : jsstring;
  newPetAnimalType : option jsstring;
  newPetBreed : option jsstring;
  newPetThumbnailUrl : option jsstring
}.

(** The argument of [addInterpretationToPet]. *)
Record NewEntry : Type := {
  newText : jsstring;
  newContext : LiveVideoView.EntryContext;
  newVideoFileName : option jsstring
}.

(** The [pets] state and the storage. *)
Record State : Type := {
  pets : list Pet;
  storage : LocalStorage
}.

(** The first effect: [setPets(loadPets())]. *)
Definition mount (ls : LocalStorage) : State :=
  {| pets := loadPets ls; storage := ls |}.

(** [handleSavePets(updatedPets)] *)
Definition handleSavePets (updatedPets : list Pet) (st : State) : State :=
  {| pets := updatedPets; storage := savePets updatedPets (storage st) |}.

(** The pet that [addPet] of a render builds. *)
Definition petWithId (newPet : NewPet) (now iso : jsstring) : Pet :=
  {| petId := now; name := newPetName newPet;
     animalType := newPetAnimalType newPet; breed := newPetBreed newPet;
     thumbnailUrl := newPetThumbnailUrl newPet;
     interpretations := []; createdAt := iso |}.

(** [addPet(newPet)] of the render that saw [renderPets]. *)
Definition addPet (renderPets : list Pet) (newPet : NewPet)
    (now iso : jsstring) (st : State) : Pet * State :=
  let p := petWithId newPet now iso in
  let updatedPets := renderPets ++ [p] in
  (p, handleSavePets updatedPets st).

Definition withEntry (entry : NewEntry) (now iso : jsstring) (p : Pet) : Pet :=
  {| petId := petId p; name := name p; animalType := animalType p;
     breed := breed p; thumbnailUrl := thumbnailUrl p;
     interpretations :=
       interpretations p
       ++ [{| entryId := now; timestamp := iso; text := newText entry;
              context := newContext entry;
              videoFileName := newVideoFileName entry |}];
     createdAt := createdAt p |}.

(** [addInterpretationToPet(petId, entry)] of the render that saw
    [renderPets]. *)
Definition addInterpretationToPet (renderPets : list Pet) (i : jsstring)
    (entry : NewEntry) (now iso : jsstring) (st : State) : State :=
  let updatedPets :=
    map (fun p => if str_eqb (petId p) i then withEntry entry now iso p else p)
      renderPets in
  handleSavePets updatedPets st.

(** A call of a store prop by a view, with the clock readings it makes. *)
Inductive PropCall : Type :=
| CallAddPet (newPet : NewPet) (now iso : jsstring)
| CallAddInterpretationToPet (i : jsstring) (entry : NewEntry)
    (now iso : jsstring).

(** The calls a view makes in one handler, all through the props of the
    render that saw [renderPets]. *)
Fixpoint callProps (renderPets : list Pet) (calls : list PropCall)
    (st : State) : State :=
  match calls with
  | [] => st
  | CallAddPet newPet now iso :: calls' =>
      callProps renderPets calls' (snd (addPet renderPets newPet now iso st))
  | CallAddInterpretationToPet i entry now iso :: calls' =>
      callProps renderPets calls'
        (addInterpretationToPet renderPets i entry now iso st)
  end.

(** A handler of a view: its calls go through the props of the latest
    render, which saw the current [pets]. *)
Definition handler (calls : list PropCall) (st : State) : State :=
  callProps (pets st) calls st.

End App.

(* ================================================================== *)
(** * views/PetCatalogView.tsx *)
(* ================================================================== *)

Module PetCatalogView.

Import LocalStorageService.

(** The view's own state, and the storage it writes to. *)
Record State : Type := {
  pets : list Pet;
  searchTerm : jsstring;
  storage : LocalStorage
}.

(** The first render: [useState(initialPets)], [initialPets] being the
    [pets] prop. *)
Definition mount (initialPets : list Pet) (ls : LocalStorage) : State :=
  {| pets := initialPets; searchTerm := []; storage := ls |}.

(** [handleDeletePet(petId)]; [confirmed] is the answer of
    [window.confirm]. *)
Definition handleDeletePet (i : jsstring) (confirmed : bool) (st : State)
  : State :=
  if confirmed then
    {| pets := filter (fun p => negb (str_eqb (petId p) i)) (pets st);
       searchTerm := searchTerm st;
       storage := deletePetFromStorage i (storage st) |}
  else st.

(** [x?.toLowerCase().includes(term)], undefined counting as false. *)
Definition matchesOpt (field : option jsstring) (term : jsstring) : bool :=
  match field with
  | Some s => includes (toLowerCase s) term
  | None => false
  end.

(** [filteredPets] *)
Definition filteredPets (st : State) : list Pet :=
  filter (fun pet =>
            includes (toLowerCase (name pet)) (toLowerCase (searchTerm st))
            || matchesOpt (animalType pet) (toLowerCase (searchTerm st))
            || matchesOpt (breed pet) (toLowerCase (searchTerm st)))
    (pets st).

End PetCatalogView.

(* ================================================================== *)
(** * views/VideoUploadView.tsx *)
(* ================================================================== *)

Module VideoUploadView.

Import GeminiService.

Definition DEFAULT_PROMPT : jsstring :=
  js "Analyze this pet's behavior in the video. Describe its likely mood, interpret its body language, and suggest what it might be thinking or feeling. Focus on observable cues from the video. Provide a friendly and engaging summary.".

(** The [useState] cells of the view that its handlers use; [videoFile] is
    the name of the chosen file. *)
Record Hooks : Type := {
  videoFile : option jsstring;
  customPrompt : jsstring;
  interpretation : option jsstring;
  isLoading : bool;
  error : option jsstring;
  selectedPetIdForUpload : jsstring
}.

(** The view and the calls it made through the store props. *)
Record State : Type := {
  hooks : Hooks;
  propCalls : list App.PropCall
}.

(** The first render: [activePetId || 'new']. *)
Definition mount (activePetId : option jsstring) : State :=
  {| hooks := {| videoFile := None; customPrompt := DEFAULT_PROMPT;
                 interpretation := None; isLoading := false; error := None;
                 selectedPetIdForUpload :=
                   if truthy_opt activePetId
                   then match activePetId with Some i => i | None => [] end
                   else js "new" |};
     propCalls := [] |}.

(** [handleVideoSelect(file)] *)
Definition handleVideoSelect (fileName : jsstring) (st : State) : State :=
  {| hooks := {| videoFile := Some fileName;
                 customPrompt := customPrompt (hooks st);
                 interpretation := None;
                 isLoading := isLoading (hooks st);
                 error := None;
                 selectedPetIdForUpload := selectedPetIdForUpload (hooks st) |};
     propCalls := propCalls st |}.

(** [handleInterpretPet()] of render [r] up to its [await]; the boolean
    tells whether it goes on to call [interpretPetVideo]. *)
Definition handleInterpretPet (r : Hooks) (st : State) : State * bool :=
  match videoFile r with
  | None =>
      ({| hooks := {| videoFile := videoFile (hooks st);
                      customPrompt := customPrompt (hooks st);
                      interpretation := interpretation (hooks st);
                      isLoading := isLoading (hooks st);
                      error := Some (js "Please select a video file first.");
                      selectedPetIdForUpload :=
                        selectedPetIdForUpload (hooks st) |};
          propCalls := propCalls st |}, false)
  | Some _ =>
      ({| hooks := {| videoFile := videoFile (hooks st);
                      customPrompt := customPrompt (hooks st);
                      interpretation := None;
                      isLoading := true;
                      error := None;
                      selectedPetIdForUpload :=
                        selectedPetIdForUpload (hooks st) |};
          propCalls := propCalls st |}, true)
  end.

Definition uploadEntry (result fileName : jsstring) : App.NewEntry :=
  {| App.newText := result; App.newContext := LiveVideoView.UploadedVideo;
     App.newVideoFileName := Some fileName |}.

(** The pet that the 'new' branch creates. *)
Definition petFromUpload (fileName : jsstring) : App.NewPet :=
  {| App.newPetName := js "Pet from " ++ substring0 20 fileName ++ js "...";
     App.newPetAnimalType := None; App.newPetBreed := None;
     App.newPetThumbnailUrl := None |}.

(** The store calls of the [try] block after a result. The clock readings
    [now], [iso] are those of [addPet] (so [now] is the new pet's id), and
    [now'], [iso'] those of [addInterpretationToPet]. *)
Definition associate (r : Hooks) (fileName result : jsstring)
    (now iso now' iso' : jsstring) : list App.PropCall :=
  if truthy (selectedPetIdForUpload r)
     && negb (str_eqb (selectedPetIdForUpload r) (js "new"))
  then [App.CallAddInterpretationToPet (selectedPetIdForUpload r)
          (uploadEntry result fileName) now' iso']
  else if str_eqb (selectedPetIdForUpload r) (js "new")
  then [App.CallAddPet (petFromUpload fileName) now iso;
        App.CallAddInterpretationToPet now (uploadEntry result fileName)
          now' iso']
  else [].

(** [handleInterpretPet()] of render [r], whose file is [fileName], once
    [interpretPetVideo] settled with [res]. *)
Definition handleInterpretPetSettled (r : Hooks) (fileName : jsstring)
    (res : Outcome jsstring) (now iso now' iso' : jsstring) (st : State)
  : State :=
  match res with
  | Return result =>
      {| hooks := {| videoFile := videoFile (hooks st);
                     customPrompt := customPrompt (hooks st);
                     interpretation := Some result;
                     isLoading := false;
                     error := error (hooks st);
                     selectedPetIdForUpload :=
                       selectedPetIdForUpload (hooks st) |};
         propCalls := propCalls st
                      ++ associate r fileName result now iso now' iso' |}
  | Throw err =>
      {| hooks := {| videoFile := videoFile (hooks st);
                     customPrompt := customPrompt (hooks st);
                     interpretation := interpretation (hooks st);
                     isLoading := false;
                     error :=
                       Some match err with
                            | ErrorObj m => m
                            | Thrown =>
                                js "An unknown error occurred during interpretation."
                            end;
                     selectedPetIdForUpload :=
                       selectedPetIdForUpload (hooks st) |};
         propCalls := propCalls st |}
  end.

(** One click on the button, from the click to the settled call: the file
    is read ([fileData], [None] when the reader fails) and the backend
    answers ([backend]); [ai] tells whether the client exists. *)
Definition interpretClick (ai : bool) (fileData : option jsstring)
    (backend : GenerateContent) (now iso now' iso' : jsstring) (st : State)
  : State :=
  let r := hooks st in
  match videoFile r with
  | None => fst (handleInterpretPet r st)
  | Some fileName =>
      handleInterpretPetSettled r fileName
        (interpretPetVideo ai fileName fileData backend)
        now iso now' iso' (fst (handleInterpretPet r st))
  end.

End VideoUploadView.

(* ================================================================== *)
(** * Events of the live view that reach the collaborators *)
(* ================================================================== *)

Module Footprint.

Import LiveVideoView.

(** The events whose handlers call a store prop or [speak]: the confirmation
    of an identification and the settling of an interpretation call. *)
Definition storesOrSpeaks (e : Event) : bool :=
  match e with
  | ClickSave _ => true
  | LiveSettled _ _ => true
  | _ => false
  end.

(** The store calls of the live view as calls of the props of [App]: the
    view's [addPet] argument has no thumbnail and its entries no file name.
    [clock] gives, call by call, the readings [Date.now().toString()] and
    [new Date().toISOString()] of the prop. *)
Definition toPropCall (c : StoreCall) (clock : jsstring * jsstring)
  : App.PropCall :=
  match c with
  | AddPet p =>
      App.CallAddPet
        {| App.newPetName := newName p;
           App.newPetAnimalType := newAnimalType p;
           App.newPetBreed := newBreed p;
           App.newPetThumbnailUrl := None |}
        (fst clock) (snd clock)
  | AddInterpretationToPet i entryText context =>
      App.CallAddInterpretationToPet i
        {| App.newText := entryText; App.newContext := context;
           App.newVideoFileName := None |}
        (fst clock) (snd clock)
  end.

End Footprint.

(* ================================================================== *)
(** * Properties of the strings *)
(* ================================================================== *)

Lemma str_eqb_refl : forall a, str_eqb a a = true.
Proof.
  induction a as [|x a IH]; simpl; [reflexivity|].
  now rewrite N.eqb_refl.
Qed.

Lemma str_eqb_eq : forall a b, str_eqb a b = true <-> a = b.
Proof.
  induction a as [|x a IH]; destruct b as [|y b]; simpl; split;
    try congruence; try reflexivity.
  - intros H. apply andb_true_iff in H as [Hx Hab].
    apply N.eqb_eq in Hx. apply IH in Hab. congruence.
  - intros H. injection H as -> ->. now rewrite N.eqb_refl, str_eqb_refl.
Qed.

Lemma dropWhile_all : forall (A : Type) (p : A -> bool) (l : list A),
    Forall (fun x => p x = true) l -> dropWhile p l = [].
Proof.
  intros A p l H. induction H as [|x l Hx _ IH]; simpl; [reflexivity|].
  now rewrite Hx.
Qed.

(** A string of white space only trims to the empty string. *)
Lemma trim_whitespace : forall s,
    Forall (fun c => isWhiteSpace c = true) s -> trim s = [].
Proof.
  intros s H. unfold trim, trimStart, trimEnd.
  now rewrite (dropWhile_all _ H).
Qed.

Lemma substring0_length : forall n s, List.length (substring0 n s) <= n.
Proof. intros n s. unfold substring0. apply firstn_le_length. Qed.

(* ================================================================== *)
(** * Properties of geminiService *)
(* ================================================================== *)

Section Interpretation.

Import GeminiService.

Lemma blank_cases : forall text,
    text = None \/ (exists t, text = Some t /\ trim t = []) ->
    blank text = true.
Proof.
  intros text [->|[t [-> Ht]]]; simpl; [reflexivity|].
  now rewrite Ht.
Qed.

(** Whatever the backend does, the live path returns a text once the client
    exists. *)
Lemma interpretLiveFrame_returns : forall backend,
    exists t, interpretLiveFrame true backend = Return t.
Proof.
  intros [[t|]|e]; unfold interpretLiveFrame; simpl negb; cbv iota;
    try destruct (blank (Some t)); eauto.
Qed.

(** C8. A backend response whose text is missing, empty or blank makes the
    live path return its fixed fallback sentence (and the live path returns
    a text for every backend outcome), while the one-shot video path throws
    the "empty or unexpected response" error for the same response. *)
Theorem blank_response_live_fallback_oneshot_throws :
  forall (text : option jsstring) (fileName fileData : jsstring),
    text = None \/ (exists t, text = Some t /\ trim t = []) ->
    interpretLiveFrame true (Responded text) = Return liveFallback
    /\ (forall backend, exists t, interpretLiveFrame true backend = Return t)
    /\ interpretPetVideo true fileName (Some fileData) (Responded text)
       = Throw (ErrorObj emptyResponse).
Proof.
  intros text fileName fileData H.
  pose proof (blank_cases H) as Hb.
  repeat split.
  - unfold interpretLiveFrame. simpl negb. cbv iota.
    destruct text as [t|]; [now rewrite Hb | reflexivity].
  - apply interpretLiveFrame_returns.
  - unfold interpretPetVideo. simpl negb. cbv iota.
    destruct text as [t|]; [rewrite Hb|]; reflexivity.
Qed.

Lemma blank_response_witness :
  (Some (js "  ") = None
   \/ exists t, Some (js "  ") = Some t /\ trim t = [])
  /\ interpretLiveFrame true (Responded (Some (js "  "))) = Return liveFallback
  /\ (forall backend, exists t, interpretLiveFrame true backend = Return t)
  /\ interpretPetVideo true (js "clip.mp4") (Some (js "AAAA"))
       (Responded (Some (js "  ")))
     = Throw (ErrorObj emptyResponse).
Proof.
  assert (H : Some (js "  ") = None
              \/ exists t, Some (js "  ") = Some t /\ trim t = [])
    by (right; exists (js "  "); split; reflexivity).
  split; [exact H|].
  exact (@blank_response_live_fallback_oneshot_throws
           (Some (js "  ")) (js "clip.mp4") (js "AAAA") H).
Defined.

End Interpretation.

(* ================================================================== *)
(** * Properties of speechService *)
(* ================================================================== *)

Section Speech.

Import SpeechService Scenario.

(** C10. When the speech engine is unavailable (the module never set
    [synth]), [speak] only adds a console warning and changes nothing else,
    [cancelSpeech] changes nothing, and [isSpeaking] is false. None of the
    three has a path that throws. *)
Theorem speech_unavailable_is_noop :
  forall (m : State) (t l : jsstring) (r : number),
    synth m = None ->
    speak t l r m
    = {| synth := None; utterance := utterance m;
         warnings := warnings m
                     ++ [js "Speech synthesis not initialized or supported."] |}
    /\ cancelSpeech m = m
    /\ isSpeaking m = false.
Proof.
  intros m t l r H. unfold speak, cancelSpeech, isSpeaking.
  rewrite H. auto.
Qed.

Lemma speech_unavailable_witness :
  synth (load false silentEngine) = None
  /\ utterance (load false silentEngine) = None
  /\ speak (js "Hello") (js "en-US") one (load false silentEngine)
     = {| synth := None; utterance := None;
          warnings := [js "Speech Synthesis not supported by this browser.";
                       js "Speech synthesis not initialized or supported."] |}
  /\ cancelSpeech (load false silentEngine) = load false silentEngine
  /\ isSpeaking (load false silentEngine) = false.
Proof.
  split; [reflexivity|]. split; [reflexivity|].
  apply (speech_unavailable_is_noop (load false silentEngine)
           (js "Hello") (js "en-US") one).
  reflexivity.
Defined.






(** Of the two candidates the earlier one is taken. *)
Example speak_takes_first_candidate :
  let m := speak (js "Hello") (js "en-AU") one (load true threeVoices) in
  defaultVoice (voices threeVoices) (js "en-AU") = None
  /\ filter (fun v => startsWith (voiceLang v) (substring0 2 (js "en-AU")))
       (voices threeVoices)
     = [enGB; enUS]
  /\ option_map voice (utterance m) = Some (Some enGB).
Proof. vm_compute. repeat split; reflexivity. Qed.


End Speech.

(* ================================================================== *)
(** * Properties of the live view *)
(* ================================================================== *)

Section LiveSession.

Import GeminiService LiveVideoView Invariant.

Ltac unfold_timer_actions :=
  unfold liveEffectCleanup, liveEffect, startLiveInterpretation,
    clearAndResetIntervalRef, clearIntervalRef, setIntervalRef,
    clearInterval, seq, skip in *.

Ltac break_conditions :=
  repeat match goal with
         | |- context [if ?b then _ else _] => destruct b eqn:?
         | |- context [match ?x with _ => _ end] => destruct x eqn:?
         end.

Lemma opt_eqb_refl : forall (A : Type) (eqb : A -> A -> bool) (o : option A),
    (forall a, eqb a a = true) -> opt_eqb eqb o o = true.
Proof. intros A eqb [a|] H; simpl; auto. Qed.

Lemma info_eqb_refl : forall i, info_eqb i i = true.
Proof.
  intros i. unfold info_eqb.
  now rewrite !(opt_eqb_refl str_eqb _ str_eqb_refl).
Qed.

Lemma sameDeps_refl : forall h, sameDeps h h = true.
Proof.
  intros h. unfold sameDeps.
  rewrite !Bool.eqb_reflx, (opt_eqb_refl str_eqb _ str_eqb_refl),
    (opt_eqb_refl info_eqb _ info_eqb_refl). reflexivity.
Qed.

(** A render only touches the interval, its ref and the id counter. *)
Lemma commit_frame : forall w0 w,
    hooks (commit w0 w) = hooks w
    /\ storeCalls (commit w0 w) = storeCalls w
    /\ speakCalls (commit w0 w) = speakCalls w
    /\ liveCalls (commit w0 w) = liveCalls w
    /\ mediaStreams (commit w0 w) = mediaStreams w
    /\ speech (commit w0 w) = speech w
    /\ ticks (commit w0 w) = ticks w
    /\ ai (commit w0 w) = ai w
    /\ srcObject (commit w0 w) = srcObject w.
Proof.
  intros w0 w. unfold commit. unfold_timer_actions.
  break_conditions; simpl; repeat split; reflexivity.
Qed.


Ltac unfold_handlers :=
  unfold handle, startCamera, startCameraSettled, stopCamera,
    handleIdentifyPet, handleIdentifyPetSettled, handleSaveIdentifiedPet,
    onSelectChange, selectExistingPet, tick, tickSettled,
    captureFrameAsBase64, addPet, addInterpretationToPet, speak,
    cancelSpeech, set in *;
  unfold_timer_actions.

Lemma remove_same : forall (A : Type) (t : nat) (r : A),
    remove t [(t, r)] = [].
Proof. intros A t r. unfold remove. simpl. now rewrite Nat.eqb_refl. Qed.

(** ** The interval is owned by the ref *)

Lemma clearIntervalRef_owned : forall w,
    timerOwned w -> timers (clearIntervalRef w) = [].
Proof.
  intros w [H | (t & r & H & Href)]; unfold clearIntervalRef, clearInterval.
  - destruct (interpretationIntervalRef w); simpl; rewrite ?H; reflexivity.
  - rewrite Href. simpl. rewrite H. apply remove_same.
Qed.

Lemma clearIntervalRef_nextTimer : forall w,
    nextTimer (clearIntervalRef w) = nextTimer w.
Proof.
  intros w. unfold clearIntervalRef, clearInterval.
  destruct (interpretationIntervalRef w); reflexivity.
Qed.

Lemma startLiveInterpretation_frame : forall r w,
    hooks (startLiveInterpretation r w) = hooks w
    /\ storeCalls (startLiveInterpretation r w) = storeCalls w.
Proof.
  intros r w. unfold_timer_actions.
  break_conditions; simpl; split; reflexivity.
Qed.

Lemma startLiveInterpretation_timers : forall r w,
    timerOwned w ->
    (timers (startLiveInterpretation r w) = []
     /\ truthy_opt (currentManagingPetId r) = false
     /\ identifiedPetInfo r = None)
    \/ (timers (startLiveInterpretation r w) = [(nextTimer w, r)]
        /\ interpretationIntervalRef (startLiveInterpretation r w)
           = Some (nextTimer w)).
Proof.
  intros r w H. pose proof (clearIntervalRef_owned H) as Hc.
  pose proof (clearIntervalRef_nextTimer w) as Hn.
  unfold startLiveInterpretation, seq.
  destruct (truthy_opt (currentManagingPetId r)); simpl.
  - right. unfold setIntervalRef. simpl. rewrite Hc, Hn. auto.
  - destruct (identifiedPetInfo r); simpl.
    + right. unfold setIntervalRef. simpl. rewrite Hc, Hn. auto.
    + left. unfold skip. auto.
Qed.

Lemma clearAndReset_timers : forall w,
    timerOwned w -> timers (clearAndResetIntervalRef w) = [].
Proof.
  intros w [H | (t & r & H & Href)];
    unfold clearAndResetIntervalRef, clearInterval.
  - destruct (interpretationIntervalRef w); simpl; rewrite ?H; reflexivity.
  - rewrite Href. simpl. rewrite H. apply remove_same.
Qed.

Lemma owned_frame : forall w w',
    timers w' = timers w ->
    interpretationIntervalRef w' = interpretationIntervalRef w ->
    timerOwned w -> timerOwned w'.
Proof. intros w w' Ht Hr. unfold timerOwned. now rewrite Ht, Hr. Qed.

Lemma owned_empty : forall w, timers w = [] -> timerOwned w.
Proof. intros w H. now left. Qed.

Lemma startLiveInterpretation_owned : forall r w,
    timerOwned w -> timerOwned (startLiveInterpretation r w).
Proof.
  intros r w H.
  destruct (startLiveInterpretation_timers r H) as [(Ht & _) | (Ht & Href)].
  - now left.
  - right. eauto.
Qed.

Lemma liveEffect_owned : forall r w,
    timerOwned w -> timerOwned (liveEffect r w).
Proof.
  intros r w H. unfold liveEffect.
  destruct (_ && _).
  - now apply startLiveInterpretation_owned.
  - apply owned_empty. now apply clearAndReset_timers.
Qed.

Lemma commit_owned : forall w0 w, timerOwned w -> timerOwned (commit w0 w).
Proof.
  intros w0 w H. unfold commit.
  destruct (_ && _); [exact H|].
  unfold seq, liveEffectCleanup. apply liveEffect_owned.
  apply owned_empty. now apply clearIntervalRef_owned.
Qed.

Ltac untouched := left; split; reflexivity.

Lemma handle_timers : forall e w, timerOwned w -> timersAfter w (handle e w).
Proof.
  intros e w H. unfold timersAfter. destruct e; simpl handle.
  - (* ClickStartCamera *)
    unfold startCamera, seq, set; destruct supported; untouched.
  - (* CameraSettled *)
    destruct (lookup call (cameraCalls w)) as [r0|]; [|untouched].
    destruct result as [n|]; unfold startCameraSettled, seq; [|untouched].
    destruct (negb (truthy_opt (currentManagingPetId r0))); [untouched|].
    right; right. split.
    + apply startLiveInterpretation_owned.
      apply owned_frame with (w := w); [reflexivity|reflexivity|exact H].
    + left.
      now rewrite (proj1 (startLiveInterpretation_frame r0 _)).
  - (* ClickStopCamera *)
    right; left. unfold stopCamera, seq, cancelSpeech. simpl.
    apply clearAndReset_timers.
    apply owned_frame with (w := w); [| |exact H];
      destruct (stream (hooks w)); reflexivity.
  - (* ClickMute *) untouched.
  - (* ClickIdentify *)
    unfold handleIdentifyPet, seq, set;
      destruct (captureFrameAsBase64 (hooks w) canvas) as [[|c f]|];
      untouched.
  - (* IdentifySettled *)
    destruct (existsb _ _); [|untouched].
    unfold handleIdentifyPetSettled, seq, set;
      destruct res as [i|err]; try untouched;
      destruct (animalType i) as [a|]; try untouched;
      destruct (truthy a && negb (str_eqb a (js "Unknown"))); untouched.
  - (* TypePetName *) untouched.
  - (* ClickSave *)
    unfold handleSaveIdentifiedPet.
    destruct (identifiedPetInfo (hooks w)) as [info|]; [|untouched].
    destruct (negb (truthy (trim (petName (hooks w))))); [untouched|].
    unfold seq. right; right. split.
    + apply startLiveInterpretation_owned.
      apply owned_frame with (w := w); [reflexivity|reflexivity|exact H].
    + right.
      rewrite (proj2 (startLiveInterpretation_frame (hooks w) _)).
      unfold set, addPet, addInterpretationToPet. simpl.
      rewrite !length_app. simpl. lia.
  - (* SelectPet *)
    unfold onSelectChange, selectExistingPet, seq.
    destruct (truthy value); [|untouched].
    destruct (isCameraOn (hooks w)) eqn:Hon; [|untouched].
    right; right. split.
    + apply startLiveInterpretation_owned.
      apply owned_frame with (w := w); [reflexivity|reflexivity|exact H].
    + left.
      rewrite (proj1 (startLiveInterpretation_frame (hooks w) _)).
      exact Hon.
  - (* TimerFired *)
    destruct (lookup t (timers w)) as [r0|]; [|untouched].
    unfold tick.
    destruct (_ || _).
    + right; left. apply clearIntervalRef_owned.
      apply owned_frame with (w := w); [reflexivity|reflexivity|exact H].
    + destruct (captureFrameAsBase64 r0 canvas) as [frame|];
        [destruct (truthy frame)|]; untouched.
  - (* LiveSettled *)
    destruct (lookup call (liveCalls w)) as [c|]; [|untouched].
    unfold tickSettled, seq, set, skip, addInterpretationToPet, speak;
      destruct (interpretLiveFrame (ai w) backend) as [txt|err];
      try untouched;
      destruct (currentManagingPetId (callRender c)) as [p|];
      try destruct (truthy p);
      destruct (negb (isMuted (callRender c))); untouched.
  - (* UtteranceEnded *) untouched.
  - (* VoicesChanged *) untouched.
Qed.

Lemma handle_owned : forall e w, timerOwned w -> timerOwned (handle e w).
Proof.
  intros e w H.
  destruct (handle_timers e H) as [(Ht & Hr) | [Ht | (Ho & _)]].
  - exact (owned_frame _ Ht Hr H).
  - now apply owned_empty.
  - exact Ho.
Qed.

Lemma step_owned : forall e w, timerOwned w -> timerOwned (step e w).
Proof. intros e w H. unfold step. now apply commit_owned, handle_owned. Qed.

(** ** With the camera off no interval is left *)

Lemma sameDeps_camera : forall a b,
    sameDeps a b = true -> isCameraOn a = isCameraOn b.
Proof.
  intros a b H. unfold sameDeps in H.
  apply andb_true_iff in H as [H _]. apply andb_true_iff in H as [H _].
  apply andb_true_iff in H as [H _]. now apply Bool.eqb_prop.
Qed.

Lemma commit_cases : forall w0 w,
    (commit w0 w = w
     /\ sameDeps (hooks w0) (hooks w) = true
     /\ List.length (storeCalls w0) = List.length (storeCalls w))
    \/ commit w0 w = liveEffect (hooks w) (clearIntervalRef w).
Proof.
  intros w0 w. unfold commit.
  destruct (sameDeps (hooks w0) (hooks w)) eqn:Hd; simpl; [|now right].
  destruct (_ =? _) eqn:Hs; [|now right].
  left. apply Nat.eqb_eq in Hs. auto.
Qed.

Lemma step_off : forall e w, Inv w -> cameraOffNoTimer (step e w).
Proof.
  intros e w [Hown Hoff _ _] Hc. unfold step in *.
  destruct (commit_frame w (handle e w)) as (Hh & _).
  rewrite Hh in Hc.
  destruct (commit_cases w (handle e w)) as [(-> & Hd & Hs) | ->].
  - apply sameDeps_camera in Hd. rewrite Hc in Hd.
    destruct (handle_timers e Hown) as [(Ht & _) | [Ht | (_ & [Hon | Hst])]].
    + rewrite Ht. now apply Hoff.
    + exact Ht.
    + congruence.
    + lia.
  - unfold liveEffect. rewrite Hc. simpl.
    apply clearAndReset_timers, owned_empty, clearIntervalRef_owned.
    now apply handle_owned.
Qed.

(** ** The held stream, and the bound of the log *)

(** The interval actions leave everything but the interval alone. *)
Lemma startLiveInterpretation_world : forall r w,
    mediaStreams (startLiveInterpretation r w) = mediaStreams w
    /\ ticks (startLiveInterpretation r w) = ticks w
    /\ liveCalls (startLiveInterpretation r w) = liveCalls w
    /\ nextCall (startLiveInterpretation r w) = nextCall w.
Proof.
  intros r w. unfold_timer_actions.
  break_conditions; simpl; repeat split; reflexivity.
Qed.

Lemma clearIntervalRef_world : forall w,
    hooks (clearIntervalRef w) = hooks w
    /\ mediaStreams (clearIntervalRef w) = mediaStreams w
    /\ ticks (clearIntervalRef w) = ticks w
    /\ liveCalls (clearIntervalRef w) = liveCalls w.
Proof.
  intros w. unfold_timer_actions.
  break_conditions; simpl; repeat split; reflexivity.
Qed.

Lemma clearAndReset_world : forall w,
    hooks (clearAndResetIntervalRef w) = hooks w
    /\ mediaStreams (clearAndResetIntervalRef w) = mediaStreams w
    /\ ticks (clearAndResetIntervalRef w) = ticks w
    /\ liveCalls (clearAndResetIntervalRef w) = liveCalls w
    /\ speech (clearAndResetIntervalRef w) = speech w.
Proof.
  intros w. unfold_timer_actions.
  break_conditions; simpl; repeat split; reflexivity.
Qed.

(** The case analysis every handler goes through, down to straight-line
    code. *)
Ltac handler_cases e w :=
  destruct e as [supported|call result| | |canvas|call res|value|newId
                |value|t canvas|call backend| |vs];
  simpl handle;
  [ unfold startCamera, seq; destruct supported
  | destruct (lookup call (cameraCalls w)) as [r0|];
    [ destruct result as [n|]; unfold startCameraSettled, seq;
      [ destruct (negb (truthy_opt (currentManagingPetId r0))) | ]
    | ]
  | unfold stopCamera, seq, cancelSpeech;
    destruct (stream (hooks w)) as [sid|]
  |
  | unfold handleIdentifyPet, seq;
    destruct (captureFrameAsBase64 (hooks w) canvas) as [[|c0 f0]|]
  | destruct (existsb (Nat.eqb call) (identifyCalls w));
    [ unfold handleIdentifyPetSettled, seq;
      destruct res as [i|err];
      [ destruct (animalType i) as [a|];
        [ destruct (truthy a && negb (str_eqb a (js "Unknown"))) | ]
      | ]
    | ]
  |
  | unfold handleSaveIdentifiedPet;
    destruct (identifiedPetInfo (hooks w)) as [info|];
    [ destruct (negb (truthy (trim (petName (hooks w))))); unfold seq | ]
  | unfold onSelectChange, selectExistingPet, seq;
    destruct (truthy value); [ destruct (isCameraOn (hooks w)) eqn:Hon | ]
  | destruct (lookup t (timers w)) as [r0|] eqn:Hlook;
    [ unfold tick;
      destruct (negb (isCameraOn r0) || _);
      [ | destruct (captureFrameAsBase64 r0 canvas) as [frame|];
          [ destruct (truthy frame) | ] ]
    | ]
  | destruct (lookup call (liveCalls w)) as [c|];
    [ unfold tickSettled, seq;
      destruct (interpretLiveFrame (ai w) backend) as [txt|err];
      [ destruct (currentManagingPetId (callRender c)) as [p|];
        [ destruct (truthy p) | ];
        destruct (negb (isMuted (callRender c)))
      | ]
    | ]
  |
  | ].

Lemma handle_stream : forall e w,
    cameraOnHasStream w -> cameraOnHasStream (handle e w).
Proof.
  intros e w H. unfold cameraOnHasStream.
  handler_cases e w;
    rewrite ?(proj1 (startLiveInterpretation_frame _ _)),
      ?(proj1 (startLiveInterpretation_world _ _)),
      ?(proj1 (clearIntervalRef_world _)),
      ?(proj1 (proj2 (clearIntervalRef_world _)));
    try exact H;
    try (intros Hc; discriminate Hc);
    try (intros Hc; cbn in Hc;
         rewrite (proj1 (clearAndReset_world _)) in Hc; discriminate Hc).
  - (* the camera call settled with a stream; no subject captured *)
    intros _. exists (List.length (mediaStreams w)).
    split; [reflexivity|]. unfold skip, set. cbn.
    rewrite length_app. simpl. lia.
  - (* the same, with a subject captured *)
    intros _. exists (List.length (mediaStreams w)).
    split; [reflexivity|]. unfold set. cbn.
    rewrite length_app. simpl. lia.
Qed.

Lemma pushLog_length : forall t l, List.length (pushLog t l) <= 100.
Proof.
  intros t l. unfold pushLog. cbn [List.length].
  rewrite length_firstn. lia.
Qed.

Lemma handle_log : forall e w, logBounded w -> logBounded (handle e w).
Proof.
  intros e w H. unfold logBounded.
  handler_cases e w;
    rewrite ?(proj1 (startLiveInterpretation_frame _ _)),
      ?(proj1 (clearIntervalRef_world _));
    try exact H;
    try (change (0 <= 100); lia);
    try apply pushLog_length;
    try (cbn; rewrite (proj1 (clearAndReset_world _)); exact H).
Qed.

Lemma step_inv : forall e w, Inv w -> Inv (step e w).
Proof.
  intros e w HI. pose proof HI as [Hown Hoff Hstr Hlog].
  destruct (commit_frame w (handle e w))
    as (Hh & _ & _ & _ & Hms & _). fold (step e w) in Hh, Hms.
  split.
  - now apply step_owned.
  - now apply step_off.
  - unfold cameraOnHasStream. rewrite Hh, Hms. now apply handle_stream.
  - unfold logBounded. rewrite Hh. now apply handle_log.
Qed.

Lemma mount_inv : forall hasClient activePetId sp,
    Inv (mount hasClient activePetId sp).
Proof.
  intros. split.
  - now left.
  - intros _. reflexivity.
  - intros H. discriminate.
  - unfold logBounded. simpl. lia.
Qed.

Lemma run_inv : forall es w, Inv w -> Inv (run es w).
Proof.
  induction es as [|e es IH]; intros w H; simpl; [exact H|].
  apply IH. now apply step_inv.
Qed.

(** ** The effect of a settled interpretation call *)

Lemma tickSettled_return : forall r interpretationText w,
    hooks (tickSettled r (Return interpretationText) w)
    = setIsLoading false
        (setInterpretationLog
           (pushLog interpretationText (interpretationLog (hooks w)))
           (setCurrentLiveInterpretation interpretationText (hooks w)))
    /\ storeCalls (tickSettled r (Return interpretationText) w)
       = storeCalls w
         ++ match currentManagingPetId r with
            | Some petId =>
                if truthy petId
                then [AddInterpretationToPet petId interpretationText
                        LiveInterpretation]
                else []
            | None => []
            end
    /\ speakCalls (tickSettled r (Return interpretationText) w)
       = speakCalls w ++ (if isMuted r then [] else [interpretationText]).
Proof.
  intros r txt w. unfold tickSettled, seq.
  destruct (currentManagingPetId r) as [p|]; [destruct (truthy p)|];
    destruct (isMuted r); simpl;
    rewrite ?app_nil_r; repeat split; reflexivity.
Qed.

Lemma tickSettled_throw : forall r err w,
    let message := match err with
                   | ErrorObj m => m
                   | Thrown => js "Error during live interpretation."
                   end in
    hooks (tickSettled r (Throw err) w)
    = setIsLoading false
        (setError (Some message)
           (setCurrentLiveInterpretation message (hooks w)))
    /\ storeCalls (tickSettled r (Throw err) w) = storeCalls w
    /\ speakCalls (tickSettled r (Throw err) w) = speakCalls w.
Proof. intros r err w. repeat split; reflexivity. Qed.

Lemma step_LiveSettled : forall w call c backend,
    lookup call (liveCalls w) = Some c ->
    let w1 := tickSettled (callRender c) (interpretLiveFrame (ai w) backend)
                (withLiveCalls (remove call (liveCalls w)) w) in
    hooks (step (LiveSettled call backend) w) = hooks w1
    /\ storeCalls (step (LiveSettled call backend) w) = storeCalls w1
    /\ speakCalls (step (LiveSettled call backend) w) = speakCalls w1.
Proof.
  intros w call c backend H. unfold step. simpl handle. rewrite H.
  destruct (commit_frame w
              (tickSettled (callRender c) (interpretLiveFrame (ai w) backend)
                 (withLiveCalls (remove call (liveCalls w)) w)))
    as (Hh & Hs & Hp & _).
  auto.
Qed.

(** ** The bounded log *)

Lemma firstn_99 : forall (l : list jsstring),
    List.length l <= 100 ->
    firstn 99 l = if List.length l <? 100 then l else removelast l.
Proof.
  intros l H. destruct (List.length l <? 100) eqn:Hl.
  - apply Nat.ltb_lt in Hl. apply firstn_all2. lia.
  - apply Nat.ltb_ge in Hl.
    rewrite removelast_firstn_len.
    replace (List.length l) with 100 by lia. reflexivity.
Qed.

Lemma run_log_bounded : forall hasClient activePetId sp es,
    List.length
      (interpretationLog (hooks (run es (mount hasClient activePetId sp))))
    <= 100.
Proof.
  intros. apply (inv_log (run_inv es (mount_inv hasClient activePetId sp))).
Qed.

(** C5. In every run of the component the in-memory log holds at most 100
    entries, before and after an interpretation is pushed. A push puts the
    new text first; while the log has fewer than 100 entries nothing is
    dropped, and at 100 entries exactly the last, oldest, entry is
    dropped. *)
Theorem interpretationLog_bounded :
  forall hasClient activePetId sp es call c backend interpretationText,
    let w := run es (mount hasClient activePetId sp) in
    lookup call (liveCalls w) = Some c ->
    interpretLiveFrame (ai w) backend = Return interpretationText ->
    let log := interpretationLog (hooks w) in
    let log' :=
      interpretationLog (hooks (step (LiveSettled call backend) w)) in
    List.length log <= 100
    /\ List.length log' <= 100
    /\ log' = interpretationText
              :: (if List.length log <? 100 then log else removelast log).
Proof.
  intros hasClient activePetId sp es call c backend txt w Hc Hi log log'.
  assert (Hlog : List.length log <= 100) by apply run_log_bounded.
  assert (Hlog' : log' = pushLog txt log).
  { unfold log'.
    rewrite (proj1 (@step_LiveSettled w call c backend Hc)), Hi.
    rewrite (proj1 (tickSettled_return _ _ _)). reflexivity. }
  split; [exact Hlog|]. split.
  - rewrite Hlog'. apply pushLog_length.
  - rewrite Hlog'. unfold pushLog. now rewrite firstn_99.
Qed.


(** ** Stopping the camera *)









(** ** Confirming an identification *)

Lemma phase_awaiting : forall h,
    phase h = AwaitingConfirmation ->
    isCameraOn h = true
    /\ truthy_opt (currentManagingPetId h) = false
    /\ identifiedPetInfo h <> None.
Proof.
  intros h. unfold phase.
  destruct (isCameraOn h); simpl; [|discriminate].
  destruct (truthy_opt (currentManagingPetId h)); [discriminate|].
  destruct (identifiedPetInfo h); simpl.
  - intros _. repeat split; congruence.
  - destruct (isIdentifying h); discriminate.
Qed.

Lemma phase_tracking : forall h,
    phase h = Tracking <->
    isCameraOn h = true /\ truthy_opt (currentManagingPetId h) = true.
Proof.
  intros h. unfold phase.
  destruct (isCameraOn h); simpl; [|split; [discriminate|intros [H _]; discriminate]].
  destruct (truthy_opt (currentManagingPetId h)); [tauto|].
  split; [|intros [_ H]; discriminate].
  destruct (identifiedPetInfo h); simpl; [discriminate|].
  destruct (isIdentifying h); discriminate.
Qed.

Lemma truthy_nonempty : forall s, s <> [] -> truthy s = true.
Proof. intros [|c s] H; [congruence|reflexivity]. Qed.

Lemma sameDeps_setError : forall h x, sameDeps h (setError x h) = true.
Proof. intros h x. exact (sameDeps_refl h). Qed.

Lemma startLiveInterpretation_nextTimer : forall r w,
    truthy_opt (currentManagingPetId r) || isSome (identifiedPetInfo r) = true ->
    nextTimer (startLiveInterpretation r w) = S (nextTimer w).
Proof.
  intros r w H. unfold startLiveInterpretation, seq.
  rewrite <- negb_orb, H. simpl. unfold setIntervalRef. simpl.
  now rewrite clearIntervalRef_nextTimer.
Qed.

(** C7. Confirming with a name that is empty or all white space changes
    nothing but the error message: no store prop is called, the pending
    identification, the typed name and the session state
    (AwaitingConfirmation) stay, no interval is started, and the error
    asks for a name. *)
Theorem confirm_blank_name_rejected :
  forall (w : World) (newId : jsstring),
    phase (hooks w) = AwaitingConfirmation ->
    Forall (fun c => isWhiteSpace c = true) (petName (hooks w)) ->
    let w' := step (ClickSave newId) w in
    w' = withHooks (setError (Some nameRequired) (hooks w)) w
    /\ storeCalls w' = storeCalls w
    /\ identifiedPetInfo (hooks w') = identifiedPetInfo (hooks w)
    /\ phase (hooks w') = AwaitingConfirmation
    /\ error (hooks w') = Some nameRequired.
Proof.
  intros w newId Hp Hws w'.
  assert (Hw' : w' = withHooks (setError (Some nameRequired) (hooks w)) w).
  { unfold w', step. simpl handle. unfold handleSaveIdentifiedPet.
    rewrite (trim_whitespace Hws).
    change (negb (truthy [])) with true. cbv iota.
    assert (H1 : (match identifiedPetInfo (hooks w) with
                  | Some _ => set (setError (Some nameRequired))
                  | None => set (setError (Some nameRequired))
                  end) w = withHooks (setError (Some nameRequired) (hooks w)) w)
      by (destruct (identifiedPetInfo (hooks w)); reflexivity).
    rewrite H1. unfold commit.
    change (hooks (withHooks (setError (Some nameRequired) (hooks w)) w))
      with (setError (Some nameRequired) (hooks w)).
    rewrite sameDeps_setError.
    change (storeCalls (withHooks (setError (Some nameRequired) (hooks w)) w))
      with (storeCalls w).
    now rewrite Nat.eqb_refl. }
  split; [exact Hw'|]. rewrite Hw'. repeat split. exact Hp.
Qed.

(** What the view does on a confirmation with a name that does not trim to
    the empty string: it calls [addPet] once, with the trimmed name and the
    identified type and breed, then [addInterpretationToPet] once, for the
    id that [addPet] returned, with the context Identification; that id
    becomes the managed pet, the pending identification and the typed name
    are cleared, the session is Tracking, and exactly one interval is live,
    created by the new render and held by the ref. *)
Lemma step_ClickSave_tracks :
  forall hasClient activePetId sp es info newId,
    let w := run es (mount hasClient activePetId sp) in
    phase (hooks w) = AwaitingConfirmation ->
    identifiedPetInfo (hooks w) = Some info ->
    trim (petName (hooks w)) <> [] ->
    newId <> [] ->
    let w' := step (ClickSave newId) w in
    storeCalls w'
    = storeCalls w
      ++ [AddPet {| newName := trim (petName (hooks w));
                    newAnimalType := animalType info;
                    newBreed := breed info |};
          AddInterpretationToPet newId (identificationText info)
            Identification]
    /\ hooks w'
       = setPetName []
           (setIdentifiedPetInfo None
              (setCurrentManagingPetId (Some newId)
                 (setError None (hooks w))))
    /\ currentManagingPetId (hooks w') = Some newId
    /\ identifiedPetInfo (hooks w') = None
    /\ phase (hooks w') = Tracking
    /\ timers w' = [(S (nextTimer w), hooks w')]
    /\ interpretationIntervalRef w' = Some (S (nextTimer w)).
Proof.
  intros hasClient activePetId sp es info newId w Hp Hinfo Hname Hid w'.
  assert (HI : Inv w) by apply run_inv, mount_inv.
  destruct (phase_awaiting _ Hp) as (Hon & Hpet & _).
  pose proof (truthy_nonempty Hname) as Htn.
  pose proof (truthy_nonempty Hid) as Hti.
  set (X := (set (setPetName [])
               (set (setIdentifiedPetInfo None)
                  (set (setCurrentManagingPetId (Some newId))
                     (addInterpretationToPet newId (identificationText info)
                        Identification
                        (addPet {| newName := trim (petName (hooks w));
                                   newAnimalType := animalType info;
                                   newBreed := breed info |}
                           (set (setError None) w))))))).
  assert (Hh : handle (ClickSave newId) w
               = startLiveInterpretation (hooks w) X).
  { simpl handle. unfold handleSaveIdentifiedPet.
    rewrite Hinfo, Htn. reflexivity. }
  set (w1 := startLiveInterpretation (hooks w) X) in *.
  assert (Hown1 : timerOwned w1).
  { apply startLiveInterpretation_owned.
    apply owned_frame with (w := w);
      [reflexivity | reflexivity | apply (inv_owned HI)]. }
  destruct (startLiveInterpretation_frame (hooks w) X) as (Hh1 & Hs1).
  fold w1 in Hh1, Hs1.
  assert (Hn1 : nextTimer w1 = S (nextTimer w)).
  { unfold w1. rewrite startLiveInterpretation_nextTimer;
      [reflexivity | rewrite Hinfo; apply orb_true_r]. }
  assert (Hstore : storeCalls w1
                   = storeCalls w
                     ++ [AddPet {| newName := trim (petName (hooks w));
                                   newAnimalType := animalType info;
                                   newBreed := breed info |};
                         AddInterpretationToPet newId
                           (identificationText info) Identification]).
  { rewrite Hs1. unfold X, set, addInterpretationToPet, addPet. simpl.
    now rewrite <- app_assoc. }
  assert (Hstep : w' = startLiveInterpretation (hooks w1)
                         (clearIntervalRef w1)).
  { unfold w', step. rewrite Hh. unfold commit.
    replace (List.length (storeCalls w) =? List.length (storeCalls w1))
      with false
      by (symmetry; apply Nat.eqb_neq; rewrite Hstore, length_app; simpl; lia).
    rewrite andb_false_r. unfold seq, liveEffectCleanup, liveEffect.
    rewrite Hh1.
    change (isCameraOn (hooks X)) with (isCameraOn (hooks w)).
    change (currentManagingPetId (hooks X)) with (Some newId).
    rewrite Hon. change (truthy_opt (Some newId)) with (truthy newId).
    rewrite Hti. reflexivity. }
  destruct (commit_frame w w1) as (Hch & Hcs & _).
  assert (Hhooks : hooks w' = hooks X).
  { unfold w', step. now rewrite Hh, Hch. }
  assert (Hst' : storeCalls w' = storeCalls w1).
  { unfold w', step. now rewrite Hh, Hcs. }
  split; [now rewrite Hst'|].
  split; [exact Hhooks|].
  split; [now rewrite Hhooks|].
  split; [now rewrite Hhooks|].
  split.
  { apply phase_tracking. rewrite Hhooks. split; [exact Hon|].
    simpl. exact Hti. }
  assert (Hown2 : timerOwned (clearIntervalRef w1))
    by (apply owned_empty, clearIntervalRef_owned, Hown1).
  destruct (startLiveInterpretation_timers (hooks w1) Hown2)
    as [(_ & Hcontra & _) | (Ht & Hr)].
  - rewrite Hh1 in Hcontra. simpl in Hcontra. congruence.
  - rewrite clearIntervalRef_nextTimer, Hn1 in Ht, Hr.
    rewrite Hhooks, <- Hh1, Hstep. split; [exact Ht | exact Hr].
Qed.


(** ** Cycle ticks: failures, overlap, late results *)

Lemma step_LiveSettled_deps : forall w call c backend,
    lookup call (liveCalls w) = Some c ->
    isCameraOn (hooks (step (LiveSettled call backend) w))
    = isCameraOn (hooks w)
    /\ currentManagingPetId (hooks (step (LiveSettled call backend) w))
       = currentManagingPetId (hooks w).
Proof.
  intros w call c backend H.
  rewrite (proj1 (@step_LiveSettled w call c backend H)).
  destruct (interpretLiveFrame (ai w) backend) as [txt|err].
  - rewrite (proj1 (tickSettled_return _ _ _)). split; reflexivity.
  - rewrite (proj1 (tickSettled_throw _ _ _)). split; reflexivity.
Qed.

(** C1, as the code has it. In Tracking, when the backend call of a tick
    fails, [interpretLiveFrame] does not reject: it returns the marker
    "Error from AI: " followed by at most the first 100 code units of the
    error message, the most-recent observation text becomes that marker
    (at most 115 code units), and the session stays Tracking. Only when
    [interpretLiveFrame] itself rejects, for want of a client, does the
    tick show the message as text and as error and touch neither the log,
    nor the store, nor the speech service. *)
Theorem tick_failure_marker_and_rejection :
  forall (w : World) (call : nat) (c : LiveCall) (e : JsError),
    lookup call (liveCalls w) = Some c ->
    phase (hooks w) = Tracking ->
    let w' := step (LiveSettled call (Failed e)) w in
    phase (hooks w') = Tracking
    /\ if ai w
       then currentLiveInterpretation (hooks w')
            = js "Error from AI: "
              ++ match e with
                 | ErrorObj message => substring0 100 message
                 | Thrown => js "Communication issue"
                 end
            /\ List.length (currentLiveInterpretation (hooks w')) <= 115
       else currentLiveInterpretation (hooks w') = notInitialized
            /\ error (hooks w') = Some notInitialized
            /\ interpretationLog (hooks w') = interpretationLog (hooks w)
            /\ storeCalls w' = storeCalls w
            /\ speakCalls w' = speakCalls w.
Proof.
  intros w call c e Hc Hp w'.
  destruct (@step_LiveSettled_deps w call c (Failed e) Hc) as (Hon & Hpet).
  destruct (@step_LiveSettled w call c (Failed e) Hc) as (Hh & Hs & Hk).
  fold w' in Hon, Hpet, Hh, Hs, Hk.
  split.
  - apply phase_tracking in Hp. apply phase_tracking.
    now rewrite Hon, Hpet.
  - destruct (ai w); unfold interpretLiveFrame in Hh, Hs, Hk;
      simpl negb in Hh, Hs, Hk; cbv iota in Hh, Hs, Hk.
    + rewrite Hh, (proj1 (tickSettled_return _ _ _)).
      split; [reflexivity|].
      change (List.length
                (js "Error from AI: "
                 ++ match e with
                    | ErrorObj message => substring0 100 message
                    | Thrown => js "Communication issue"
                    end) <= 115).
      rewrite length_app. change (List.length (js "Error from AI: ")) with 15.
      destruct e as [m|].
      * pose proof (substring0_length 100 m). lia.
      * change (List.length (js "Communication issue")) with 19. lia.
    + rewrite Hh, Hs, Hk. repeat split; reflexivity.
Qed.

(** C2, as the code has it. In every run at most one interval is live, and
    when it fires with the camera on and a frame available, the tick calls
    [interpretLiveFrame] once, whatever calls are still pending and whatever
    [isLoading] is: the new call is added to the pending ones, none is
    skipped and none is queued. *)
Theorem tick_is_not_gated_by_pending_calls :
  forall hasClient activePetId sp es t r frame,
    let w := run es (mount hasClient activePetId sp) in
    lookup t (timers w) = Some r ->
    isCameraOn r = true ->
    isSome (srcObject w) = true ->
    frame <> [] ->
    let w' := step (TimerFired t (Some frame)) w in
    timers w = [(t, r)]
    /\ liveCalls w'
       = liveCalls w
         ++ [(nextCall w,
              {| callRender := r; callFrame := frame;
                 callPrompt := if truthy_opt (currentManagingPetId r)
                               then PET_IDENTIFICATION_PROMPT
                               else NEW_PET_PROMPT_LIVE |})]
    /\ isLoading (hooks w') = true
    /\ ticks w' = S (ticks w).
Proof.
  intros hasClient activePetId sp es t r frame w Hl Hon Hsrc Hf w'.
  assert (HI : Inv w) by apply run_inv, mount_inv.
  split.
  - destruct (inv_owned HI) as [H | (t0 & r0 & H & _)];
      rewrite H in Hl; simpl in Hl; [discriminate|].
    destruct (t0 =? t) eqn:Ht; [|discriminate].
    apply Nat.eqb_eq in Ht. congruence.
  - destruct (commit_frame w (handle (TimerFired t (Some frame)) w))
      as (Hh & _ & _ & Hlc & _ & _ & Htk & _).
    fold (step (TimerFired t (Some frame)) w) in Hh, Hlc, Htk.
    fold w' in Hh, Hlc, Htk.
    assert (Hhd : handle (TimerFired t (Some frame)) w
                  = tick r (Some frame) (withTicks (S (ticks w)) w))
      by (simpl handle; now rewrite Hl).
    rewrite Hhd in Hh, Hlc, Htk. unfold tick in Hh, Hlc, Htk.
    change (srcObject (withTicks (S (ticks w)) w)) with (srcObject w)
      in Hh, Hlc, Htk.
    unfold captureFrameAsBase64 in Hh, Hlc, Htk.
    rewrite Hon, Hsrc, (truthy_nonempty Hf) in Hh, Hlc, Htk.
    simpl in Hh, Hlc, Htk. rewrite Hh, Hlc, Htk. auto.
Qed.

(** C3, as the code has it. There is no generation counter: when a pending
    interpretation call settles with a text, the text becomes the
    most-recent observation and is pushed on the log, whatever the camera
    state and the managed pet are by then; it is stored, if at all, for the
    pet that the tick's render had captured, never for another one, and it
    is spoken unless that render was muted. The settling changes neither
    the camera state nor the managed pet. *)
Theorem late_result_applies_to_captured_subject :
  forall (w : World) (call : nat) (c : LiveCall) (backend : GenerateContent)
         (interpretationText : jsstring),
    lookup call (liveCalls w) = Some c ->
    interpretLiveFrame (ai w) backend = Return interpretationText ->
    let w' := step (LiveSettled call backend) w in
    currentLiveInterpretation (hooks w') = interpretationText
    /\ interpretationLog (hooks w')
       = pushLog interpretationText (interpretationLog (hooks w))
    /\ storeCalls w'
       = storeCalls w
         ++ match currentManagingPetId (callRender c) with
            | Some petId =>
                if truthy petId
                then [AddInterpretationToPet petId interpretationText
                        LiveInterpretation]
                else []
            | None => []
            end
    /\ speakCalls w'
       = speakCalls w
         ++ (if isMuted (callRender c) then [] else [interpretationText])
    /\ isCameraOn (hooks w') = isCameraOn (hooks w)
    /\ currentManagingPetId (hooks w') = currentManagingPetId (hooks w).
Proof.
  intros w call c backend txt Hc Hi w'.
  destruct (@step_LiveSettled_deps w call c backend Hc) as (Hon & Hpet).
  destruct (@step_LiveSettled w call c backend Hc) as (Hh & Hs & Hk).
  fold w' in Hon, Hpet, Hh, Hs, Hk.
  rewrite Hi in Hh, Hs, Hk.
  destruct (tickSettled_return (callRender c) txt
              (withLiveCalls (remove call (liveCalls w)) w))
    as (Hh' & Hs' & Hk').
  rewrite Hh' in Hh. rewrite Hs' in Hs. rewrite Hk' in Hk.
  rewrite Hh, Hs, Hk. repeat split; assumption.
Qed.

End LiveSession.

(* ================================================================== *)
(** * The scenarios *)
(* ================================================================== *)

Section Scenarios.

Import GeminiService LiveVideoView Invariant Scenario.

(** Tracking "p1", one tick in flight (call 1), the backend times out. *)
Lemma tick_failure_witness :
  let w := run (trackP1 ++ [TimerFired 2 (Some frame)]) page in
  let w' := step (LiveSettled 1 (Failed (ErrorObj (js "Request timed out")))) w in
  isSome (lookup 1 (liveCalls w)) = true
  /\ phase (hooks w) = Tracking
  /\ phase (hooks w') = Tracking
  /\ currentLiveInterpretation (hooks w')
     = js "Error from AI: " ++ substring0 100 (js "Request timed out")
  /\ List.length (currentLiveInterpretation (hooks w')) <= 115.
Proof.
  intros w w'.
  split; [reflexivity|]. split; [reflexivity|].
  destruct (lookup 1 (liveCalls w)) as [c|] eqn:Hc;
    [|vm_compute in Hc; discriminate Hc].
  pose proof (@tick_failure_marker_and_rejection w 1 c
                (ErrorObj (js "Request timed out")) Hc eq_refl) as H.
  cbv zeta in H. change (ai w) with true in H. cbv iota in H.
  exact H.
Defined.

(** C1 as stated fails: in Tracking with mute off, the tick whose backend
    call times out appends the error marker to the store as a live
    interpretation of "p1" and passes it to [speak]. *)
Lemma tick_failure_is_stored_and_spoken :
  let w := run (trackP1 ++ [TimerFired 2 (Some frame)]) page in
  let w' := step (LiveSettled 1 (Failed (ErrorObj (js "Request timed out")))) w in
  runEnabled (trackP1 ++ [TimerFired 2 (Some frame)]) page = Some w
  /\ phase (hooks w) = Tracking
  /\ isMuted (hooks w) = false
  /\ isSome (lookup 1 (liveCalls w)) = true
  /\ storeCalls w = []
  /\ speakCalls w = []
  /\ storeCalls w'
     = [AddInterpretationToPet (js "p1")
          (js "Error from AI: Request timed out") LiveInterpretation]
  /\ speakCalls w' = [js "Error from AI: Request timed out"]
  /\ error (hooks w') = None.
Proof. vm_compute. repeat split; reflexivity. Qed.

(** Tracking "p1", call 1 still pending, the interval fires again. *)
Lemma tick_not_gated_witness :
  let w := run (trackP1 ++ [TimerFired 2 (Some frame)]) page in
  let w' := step (TimerFired 2 (Some frame)) w in
  exists r,
    lookup 2 (timers w) = Some r
    /\ isCameraOn r = true
    /\ isSome (srcObject w) = true
    /\ frame <> []
    /\ timers w = [(2, r)]
    /\ liveCalls w'
       = liveCalls w
         ++ [(nextCall w,
              {| callRender := r; callFrame := frame;
                 callPrompt := if truthy_opt (currentManagingPetId r)
                               then PET_IDENTIFICATION_PROMPT
                               else NEW_PET_PROMPT_LIVE |})]
    /\ isLoading (hooks w') = true
    /\ ticks w' = S (ticks w).
Proof.
  intros w w'.
  destruct (lookup 2 (timers w)) as [r|] eqn:Hr;
    [|vm_compute in Hr; discriminate Hr].
  assert (Hon : isCameraOn r = true)
    by (vm_compute in Hr; injection Hr as <-; reflexivity).
  assert (Hf : frame <> []) by discriminate.
  exists r. split; [reflexivity|]. split; [exact Hon|].
  split; [reflexivity|]. split; [exact Hf|].
  exact (@tick_is_not_gated_by_pending_calls true None
           (SpeechService.load true twoVoices)
           (trackP1 ++ [TimerFired 2 (Some frame)]) 2 r frame
           Hr Hon eq_refl Hf).
Defined.

(** C2 as stated fails: the interval fires while the call of the previous
    tick is pending, the second tick runs and two calls are in flight. *)
Lemma second_tick_runs_while_first_is_pending :
  let w := run (trackP1 ++ [TimerFired 2 (Some frame)]) page in
  let w' := step (TimerFired 2 (Some frame)) w in
  runEnabled (trackP1 ++ [TimerFired 2 (Some frame); TimerFired 2 (Some frame)])
    page = Some w'
  /\ map fst (liveCalls w) = [1]
  /\ isLoading (hooks w) = true
  /\ ticks w = 1
  /\ map fst (liveCalls w') = [1; 2]
  /\ ticks w' = 2.
Proof. vm_compute. repeat split; reflexivity. Qed.

(** Tracking "p1", call 1 pending; the camera is stopped and "p2" is
    selected; then the call settles. *)
Lemma late_result_witness :
  let w := run (trackP1 ++ [TimerFired 2 (Some frame); ClickStopCamera;
                            SelectPet (js "p2")]) page in
  let w' := step (LiveSettled 1 (Responded (Some (js "Wagging its tail.")))) w in
  exists c,
    lookup 1 (liveCalls w) = Some c
    /\ interpretLiveFrame (ai w) (Responded (Some (js "Wagging its tail.")))
       = Return (js "Wagging its tail.")
    /\ currentLiveInterpretation (hooks w') = js "Wagging its tail."
    /\ interpretationLog (hooks w')
       = pushLog (js "Wagging its tail.") (interpretationLog (hooks w))
    /\ storeCalls w'
       = storeCalls w
         ++ match currentManagingPetId (callRender c) with
            | Some petId =>
                if truthy petId
                then [AddInterpretationToPet petId (js "Wagging its tail.")
                        LiveInterpretation]
                else []
            | None => []
            end
    /\ speakCalls w'
       = speakCalls w
         ++ (if isMuted (callRender c) then [] else [js "Wagging its tail."])
    /\ isCameraOn (hooks w') = isCameraOn (hooks w)
    /\ currentManagingPetId (hooks w') = currentManagingPetId (hooks w).
Proof.
  intros w w'.
  destruct (lookup 1 (liveCalls w)) as [c|] eqn:Hc;
    [|vm_compute in Hc; discriminate Hc].
  exists c. split; [reflexivity|]. split; [reflexivity|].
  exact (@late_result_applies_to_captured_subject w 1 c
           (Responded (Some (js "Wagging its tail.")))
           (js "Wagging its tail.") Hc eq_refl).
Defined.

(** C3 as stated fails: the call of a tick for "p1" settles after the
    camera was stopped and "p2" was selected; its text is shown as the
    most-recent observation and in the log just cleared for "p2", stored
    (for "p1") and spoken. *)
Lemma late_result_is_not_discarded :
  let w := run (trackP1 ++ [TimerFired 2 (Some frame); ClickStopCamera;
                            SelectPet (js "p2")]) page in
  let w' := step (LiveSettled 1 (Responded (Some (js "Wagging its tail.")))) w in
  runEnabled (trackP1 ++ [TimerFired 2 (Some frame); ClickStopCamera;
                          SelectPet (js "p2")]) page = Some w
  /\ phase (hooks w) = Idle
  /\ currentManagingPetId (hooks w) = Some (js "p2")
  /\ currentLiveInterpretation (hooks w) = []
  /\ interpretationLog (hooks w) = []
  /\ storeCalls w = []
  /\ speakCalls w = []
  /\ currentLiveInterpretation (hooks w') = js "Wagging its tail."
  /\ interpretationLog (hooks w') = [js "Wagging its tail."]
  /\ storeCalls w'
     = [AddInterpretationToPet (js "p1") (js "Wagging its tail.")
          LiveInterpretation]
  /\ speakCalls w' = [js "Wagging its tail."].
Proof. vm_compute. repeat split; reflexivity. Qed.


(** Tracking "p1", the first tick settles with a text. *)
Lemma interpretationLog_witness :
  let w := run (trackP1 ++ [TimerFired 2 (Some frame)]) page in
  let log := interpretationLog (hooks w) in
  let log' := interpretationLog
                (hooks (step (LiveSettled 1 (Responded (Some (js "Resting."))))
                          w)) in
  isSome (lookup 1 (liveCalls w)) = true
  /\ interpretLiveFrame (ai w) (Responded (Some (js "Resting.")))
     = Return (js "Resting.")
  /\ List.length log <= 100
  /\ List.length log' <= 100
  /\ log' = js "Resting."
            :: (if List.length log <? 100 then log else removelast log).
Proof.
  intros w log log'.
  split; [reflexivity|]. split; [reflexivity|].
  destruct (lookup 1 (liveCalls w)) as [c|] eqn:Hc;
    [|vm_compute in Hc; discriminate Hc].
  exact (@interpretationLog_bounded true None
           (SpeechService.load true twoVoices)
           (trackP1 ++ [TimerFired 2 (Some frame)]) 1 c
           (Responded (Some (js "Resting."))) (js "Resting.") Hc eq_refl).
Defined.

(** One hundred ticks fill the log, the oldest entry being "First."; the
    next tick keeps the log at one hundred entries and drops "First.". *)
Example log_drops_oldest_at_capacity :
  let w := run (trackP1
                ++ [TimerFired 2 (Some frame);
                    LiveSettled 1 (Responded (Some (js "First.")))]
                ++ cycles 99 3 2) page in
  let w' := run (cycles 1 102 101) w in
  List.length (interpretationLog (hooks w)) = 100
  /\ last (interpretationLog (hooks w)) [] = js "First."
  /\ List.length (interpretationLog (hooks w')) = 100
  /\ interpretationLog (hooks w')
     = js "Resting." :: removelast (interpretationLog (hooks w))
  /\ existsb (str_eqb (js "First.")) (interpretationLog (hooks w')) = false.
Proof. vm_compute. repeat split; reflexivity. Qed.

(** The camera is on, the identification yielded a dog of unknown breed,
    the user typed "Rex" and confirms; the store returns the id
    "1717171717171". *)
(** The scenario of the design document in full: one [addPet] call with
    the name "Rex", one identification entry, Tracking, one interval. *)
Example confirm_rex :
  let w' := run (identifyRex ++ [ClickSave (js "1717171717171")]) page in
  runEnabled (identifyRex ++ [ClickSave (js "1717171717171")]) page = Some w'
  /\ storeCalls w'
     = [AddPet {| newName := js "Rex"; newAnimalType := Some (js "Dog");
                  newBreed := Some (js "Unknown") |};
        AddInterpretationToPet (js "1717171717171")
          (js "Identified as Dog (Unknown). Description: A dog is looking at the camera.")
          Identification]
  /\ phase (hooks w') = Tracking
  /\ map fst (timers w') = [3].
Proof. vm_compute. repeat split; reflexivity. Qed.

(** The same, but the user replaced the proposed name by two spaces. *)
Lemma confirm_blank_name_witness :
  let w := run (identifyRex ++ [TypePetName (js "  ")]) page in
  let w' := step (ClickSave (js "1717171717171")) w in
  phase (hooks w) = AwaitingConfirmation
  /\ Forall (fun c => isWhiteSpace c = true) (petName (hooks w))
  /\ w' = withHooks (setError (Some nameRequired) (hooks w)) w
  /\ storeCalls w' = storeCalls w
  /\ identifiedPetInfo (hooks w') = identifiedPetInfo (hooks w)
  /\ phase (hooks w') = AwaitingConfirmation
  /\ error (hooks w') = Some nameRequired.
Proof.
  intros w w'.
  assert (Hws : Forall (fun c => isWhiteSpace c = true) (petName (hooks w))).
  { change (petName (hooks w)) with [32%N; 32%N].
    repeat constructor. }
  split; [reflexivity|]. split; [exact Hws|].
  exact (@confirm_blank_name_rejected w (js "1717171717171") eq_refl Hws).
Defined.

End Scenarios.

(* ================================================================== *)
(** * More on the strings and on geminiService *)
(* ================================================================== *)

Section MoreInterpretation.

Import GeminiService.

Lemma dropWhile_snoc_keeps : forall (A : Type) (p : A -> bool) (l : list A) (c : A),
    p c = false -> dropWhile p (l ++ [c]) <> [].
Proof.
  intros A p l c Hc. induction l as [|x l IH]; simpl.
  - now rewrite Hc.
  - destruct (p x); [exact IH | discriminate].
Qed.

(** A string that starts with a code unit that is not white space does not
    trim to the empty string. *)
Lemma trim_keeps_first : forall c s,
    isWhiteSpace c = false -> trim (c :: s) <> [].
Proof.
  intros c s Hc. unfold trim, trimStart, trimEnd.
  simpl dropWhile at 2. rewrite Hc. simpl rev.
  intros H. apply (f_equal (@rev N)) in H. rewrite rev_involutive in H.
  simpl in H. now apply (@dropWhile_snoc_keeps N isWhiteSpace (rev s) c Hc).
Qed.

Lemma blank_false : forall t, blank (Some t) = false -> trim t <> [].
Proof.
  intros t H Ht. simpl in H. rewrite Ht in H. discriminate.
Qed.

(** X1. With a client, [interpretLiveFrame] returns a text for every backend
    outcome, and the text never trims to the empty string: a missing or
    blank answer is replaced by the fallback sentence and a failure by the
    error marker. *)
Theorem interpretLiveFrame_text_is_never_blank :
  forall backend : GenerateContent,
    exists t, interpretLiveFrame true backend = Return t /\ trim t <> [].
Proof.
  intros [[t|]|e]; unfold interpretLiveFrame; simpl negb; cbv iota.
  - destruct (blank (Some t)) eqn:Hb.
    + exists liveFallback. split; [reflexivity|]. vm_compute. discriminate.
    + exists t. split; [reflexivity|]. now apply blank_false.
  - exists liveFallback. split; [reflexivity|]. vm_compute. discriminate.
  - eexists. split; [reflexivity|].
    change (js "Error from AI: ") with (69%N :: js "rror from AI: ").
    rewrite <- app_comm_cons. now apply trim_keeps_first.
Qed.

(** X2. [interpretPetVideo] returns a text exactly when the client exists,
    the file was read and the backend answered with a text that does not
    trim to the empty string; it returns that text unchanged. In every other
    case it throws an [Error]. *)
Theorem interpretPetVideo_returns_exactly_nonblank_answers :
  forall (ai : bool) (fileName : jsstring) (fileData : option jsstring)
         (backend : GenerateContent) (t : jsstring),
    (interpretPetVideo ai fileName fileData backend = Return t
     <-> ai = true /\ fileData <> None /\ backend = Responded (Some t)
         /\ trim t <> [])
    /\ (forall e, interpretPetVideo ai fileName fileData backend = Throw e ->
                  exists m, e = ErrorObj m).
Proof.
  intros ai fileName fileData backend t. split; [split|].
  - unfold interpretPetVideo. destruct ai; simpl negb; cbv iota; [|discriminate].
    destruct fileData as [d|]; [|discriminate].
    destruct backend as [[t0|]|e]; try discriminate.
    destruct (blank (Some t0)) eqn:Hb; [discriminate|].
    intros H. injection H as ->.
    repeat split; try congruence. now apply blank_false.
  - intros (-> & Hd & -> & Ht). unfold interpretPetVideo. simpl negb. cbv iota.
    destruct fileData as [d|]; [|congruence].
    assert (Hb : blank (Some t) = false).
    { simpl. destruct (str_eqb (trim t) []) eqn:Hs; [|reflexivity].
      apply str_eqb_eq in Hs. contradiction. }
    now rewrite Hb.
  - intros e. unfold interpretPetVideo.
    destruct ai; simpl negb; cbv iota; [|intros H; injection H as <-; eauto].
    destruct fileData as [d|];
      [|intros H; injection H as <-; eauto].
    destruct backend as [[t0|]|e0];
      try (intros H; injection H as <-; eauto).
    destruct (blank (Some t0)); [intros H; injection H as <-; eauto|discriminate].
Qed.

Lemma includes_startsWith : forall s p, startsWith s p = true -> includes s p = true.
Proof. intros [|c s] p H; cbn [includes]; now rewrite H. Qed.

Lemma startsWith_app_l : forall s p t,
    startsWith s p = true -> startsWith (s ++ t) p = true.
Proof.
  induction s as [|c s IH]; intros [|d p] t H; simpl in *;
    try reflexivity; try discriminate.
  - destruct t; reflexivity.
  - apply andb_true_iff in H as [Hc Hs]. now rewrite Hc, (IH p t Hs).
Qed.

Lemma includes_app_l : forall s p t,
    includes s p = true -> includes (s ++ t) p = true.
Proof.
  induction s as [|c s IH]; intros p t H.
  - simpl in H. rewrite orb_false_r in H.
    destruct p; [|discriminate]. destruct t; reflexivity.
  - simpl in H. apply orb_true_iff in H as [H|H].
    + apply includes_startsWith. now apply (startsWith_app_l (c :: s)).
    + simpl app. simpl includes. rewrite (IH p t H). apply orb_true_r.
Qed.

Lemma includes_app_r : forall t s p,
    includes s p = true -> includes (t ++ s) p = true.
Proof.
  induction t as [|c t IH]; intros s p H; simpl app; [exact H|].
  simpl includes. rewrite (IH s p H). apply orb_true_r.
Qed.

Lemma toLowerCase_app : forall a b,
    toLowerCase (a ++ b) = toLowerCase a ++ toLowerCase b.
Proof. intros. unfold toLowerCase. apply map_app. Qed.

(** X3. When the chosen file cannot be read and its name contains "quota"
    in any ASCII case, [interpretPetVideo] reports the quota-limit error
    instead of the file-processing error: the classification of
    [handleGeminiError] looks at the whole message, the file name
    included. *)
Theorem unreadable_file_named_quota_reports_quota :
  forall (fileName : jsstring) (backend : GenerateContent),
    includes (toLowerCase fileName) (js "quota") = true ->
    interpretPetVideo true fileName None backend
    = Throw (ErrorObj (js "API request failed due to quota limits. Please check your Gemini API plan or try again later.")).
Proof.
  intros fileName backend H. unfold interpretPetVideo. simpl negb. cbv iota.
  unfold handleGeminiError.
  rewrite !toLowerCase_app.
  rewrite (includes_app_r _ _ _ (includes_app_l _ _ _ H)). reflexivity.
Qed.

Lemma unreadable_file_named_quota_witness :
  includes (toLowerCase (js "Quota-test.mp4")) (js "quota") = true
  /\ interpretPetVideo true (js "Quota-test.mp4") None (Responded None)
     = Throw (ErrorObj (js "API request failed due to quota limits. Please check your Gemini API plan or try again later.")).
Proof.
  split; [reflexivity|].
  exact (@unreadable_file_named_quota_reports_quota (js "Quota-test.mp4")
           (Responded None) eq_refl).
Defined.

End MoreInterpretation.

(* ================================================================== *)
(** * More on speechService *)
(* ================================================================== *)

Section MoreSpeech.

Import SpeechService SpeechControl Scenario.

(** X4. [cancelSpeech] is idempotent: after it the engine is not speaking,
    the engine's [cancel] was called once if it was speaking and not at all
    otherwise, and a second [cancelSpeech] changes nothing. *)
Theorem cancelSpeech_is_idempotent :
  forall m : State,
    cancelSpeech (cancelSpeech m) = cancelSpeech m
    /\ isSpeaking (cancelSpeech m) = false
    /\ option_map cancels (synth (cancelSpeech m))
       = option_map (fun s => if speaking s then S (cancels s) else cancels s)
           (synth m).
Proof.
  intros m. unfold cancelSpeech, isSpeaking.
  destruct (synth m) as [s|] eqn:Hs; [|rewrite Hs; auto].
  destruct (speaking s) eqn:Hsp; cbn; rewrite ?Hs; cbn; rewrite ?Hsp;
    repeat split; reflexivity.
Qed.



Lemma applyOp_keeps_voice : forall o m v,
    currentVoice m = Some v -> currentVoice (applyOp o m) = Some v.
Proof.
  intros o m v H. unfold currentVoice in *.
  destruct (utterance m) as [u|] eqn:Hu; [|discriminate].
  destruct o as [t l r| |l| |vs]; simpl;
    unfold speak, cancelSpeech, setSpeechLang, utteranceEnded, voicesChanged;
    rewrite ?Hu; destruct (synth m) as [s|];
    try destruct (speaking s); cbn; rewrite ?Hu; try exact H;
    unfold chooseVoice; cbn; rewrite H, andb_false_r; reflexivity.
Qed.

(** X6. Once the shared utterance has a voice, no sequence of calls of
    [speak] (with whatever locale), [cancelSpeech] and [setSpeechLang], and
    no change of the engine's state or voice list, ever replaces it. *)
Theorem selected_voice_is_kept_forever :
  forall (os : list Op) (m : State) (v : Voice),
    currentVoice m = Some v -> currentVoice (applyOps os m) = Some v.
Proof.
  induction os as [|o os IH]; intros m v H; simpl; [exact H|].
  apply IH. now apply applyOp_keeps_voice.
Qed.

Lemma selected_voice_witness :
  let m := speak (js "Hello") (js "en-US") one (load true twoVoices) in
  let os := [OpVoicesChanged [esES]; OpSetSpeechLang (js "es-ES");
             OpSpeak (js "Hola") (js "es-ES") one; OpCancelSpeech] in
  currentVoice m = Some enUS /\ currentVoice (applyOps os m) = Some enUS.
Proof.
  intros m os. split; [reflexivity|].
  exact (@selected_voice_is_kept_forever os m enUS eq_refl).
Defined.

Lemma applyOp_both_or_none : forall o m,
    (synth m = None <-> utterance m = None) ->
    (synth (applyOp o m) = None <-> utterance (applyOp o m) = None).
Proof.
  intros o m H.
  destruct (synth m) as [s|] eqn:Hs; destruct (utterance m) as [u|] eqn:Hu;
    try (exfalso; destruct H as [H1 H2];
         first [now discriminate (H1 eq_refl) | now discriminate (H2 eq_refl)]).
  - destruct o as [t l r| |l| |vs]; simpl;
      unfold speak, cancelSpeech, setSpeechLang, utteranceEnded, voicesChanged;
      rewrite ?Hs, ?Hu; try destruct (speaking s); simpl; rewrite ?Hs, ?Hu;
      split; discriminate.
  - destruct o as [t l r| |l| |vs]; simpl;
      unfold speak, cancelSpeech, setSpeechLang, utteranceEnded, voicesChanged;
      rewrite ?Hs, ?Hu; simpl; rewrite ?Hs, ?Hu; tauto.
Qed.

Lemma applyOps_both_or_none : forall os m,
    (synth m = None <-> utterance m = None) ->
    (synth (applyOps os m) = None <-> utterance (applyOps os m) = None).
Proof.
  induction os as [|o os IH]; intros m H; simpl; [exact H|].
  apply IH. now apply applyOp_both_or_none.
Qed.

(** X7. [setSpeechLang] does not outlive the next [speak]: in every state
    the module reaches after loading, speaking after [setSpeechLang] gives
    the same state as speaking without it, since [speak] overwrites the
    language of the shared utterance with its own argument. *)
Theorem setSpeechLang_is_overwritten_by_speak :
  forall (supported : bool) (engine : Synth) (os : list Op)
         (l0 t l : jsstring) (r : number),
    let m := applyOps os (load supported engine) in
    speak t l r (setSpeechLang l0 m) = speak t l r m.
Proof.
  intros supported engine os l0 t l r m.
  assert (H : synth m = None <-> utterance m = None).
  { apply applyOps_both_or_none. destruct supported; simpl; split;
      try discriminate; reflexivity. }
  unfold setSpeechLang, speak.
  destruct (utterance m) as [u|] eqn:Hu; [|now rewrite Hu].
  simpl. destruct (synth m) as [s|] eqn:Hs; [reflexivity|].
  destruct H as [H _]. discriminate (H eq_refl).
Qed.

End MoreSpeech.

(* ================================================================== *)
(** * More on the live view *)
(* ================================================================== *)

Section MoreLiveSession.

Import GeminiService LiveVideoView Invariant Footprint Scenario.

Ltac frame_cases :=
  unfold liveEffectCleanup, liveEffect, startLiveInterpretation,
    clearAndResetIntervalRef, clearIntervalRef, setIntervalRef,
    clearInterval, seq, skip;
  repeat match goal with
         | |- context [if ?b then _ else _] => destruct b
         | |- context [match ?x with _ => _ end] => destruct x
         end;
  simpl; repeat split; reflexivity.

(** The case analysis of the handlers, event by event, down to
    straight-line code. *)
Ltac event_cases e w :=
  destruct e as [supported|call result| | |canvas|call res|value|newId
                |value|t canvas|call backend| |vs];
  simpl handle;
  [ unfold startCamera, seq; destruct supported
  | destruct (lookup call (cameraCalls w)) as [r0|];
    [ destruct result as [n|]; unfold startCameraSettled, seq;
      [ destruct (negb (truthy_opt (currentManagingPetId r0))) | ]
    | ]
  | unfold stopCamera, seq, cancelSpeech;
    destruct (stream (hooks w)) as [sid|]
  |
  | unfold handleIdentifyPet, seq;
    destruct (captureFrameAsBase64 (hooks w) canvas) as [[|c0 f0]|]
  | destruct (existsb (Nat.eqb call) (identifyCalls w));
    [ unfold handleIdentifyPetSettled, seq;
      destruct res as [i|err];
      [ destruct (animalType i) as [a|];
        [ destruct (truthy a && negb (str_eqb a (js "Unknown"))) | ]
      | ]
    | ]
  |
  | unfold handleSaveIdentifiedPet;
    destruct (identifiedPetInfo (hooks w)) as [info|];
    [ destruct (negb (truthy (trim (petName (hooks w))))); unfold seq | ]
  | unfold onSelectChange, selectExistingPet, seq;
    destruct (truthy value); [ destruct (isCameraOn (hooks w)) eqn:Hon | ]
  | destruct (lookup t (timers w)) as [r0|] eqn:Hlook;
    [ unfold tick;
      destruct (negb (isCameraOn r0) || _);
      [ | destruct (captureFrameAsBase64 r0 canvas) as [frame|];
          [ destruct (truthy frame) | ] ]
    | ]
  | destruct (lookup call (liveCalls w)) as [c|];
    [ unfold tickSettled, seq;
      destruct (interpretLiveFrame (ai w) backend) as [txt|err];
      [ destruct (currentManagingPetId (callRender c)) as [p|];
        [ destruct (truthy p) | ];
        destruct (negb (isMuted (callRender c)))
      | ]
    | ]
  |
  | ].

(** The interval actions leave the calls and the collaborators alone. *)
Lemma startLiveInterpretation_calls : forall r w,
    speakCalls (startLiveInterpretation r w) = speakCalls w
    /\ cameraCalls (startLiveInterpretation r w) = cameraCalls w
    /\ identifyCalls (startLiveInterpretation r w) = identifyCalls w
    /\ srcObject (startLiveInterpretation r w) = srcObject w
    /\ speech (startLiveInterpretation r w) = speech w.
Proof. intros r w. frame_cases. Qed.

Lemma clearIntervalRef_calls : forall w,
    speakCalls (clearIntervalRef w) = speakCalls w
    /\ storeCalls (clearIntervalRef w) = storeCalls w
    /\ cameraCalls (clearIntervalRef w) = cameraCalls w
    /\ identifyCalls (clearIntervalRef w) = identifyCalls w
    /\ nextTimer (clearIntervalRef w) = nextTimer w.
Proof. intros w. frame_cases. Qed.

Lemma clearAndReset_calls : forall w,
    speakCalls (clearAndResetIntervalRef w) = speakCalls w
    /\ storeCalls (clearAndResetIntervalRef w) = storeCalls w
    /\ cameraCalls (clearAndResetIntervalRef w) = cameraCalls w
    /\ identifyCalls (clearAndResetIntervalRef w) = identifyCalls w.
Proof. intros w. frame_cases. Qed.

Lemma commit_calls : forall w0 w,
    cameraCalls (commit w0 w) = cameraCalls w
    /\ identifyCalls (commit w0 w) = identifyCalls w
    /\ nextCall (commit w0 w) = nextCall w.
Proof. intros w0 w. unfold commit. frame_cases. Qed.

(** A render whose dependencies did not change leaves the world alone. *)
Lemma commit_same : forall w0 w,
    sameDeps (hooks w0) (hooks w) = true ->
    storeCalls w = storeCalls w0 ->
    commit w0 w = w.
Proof.
  intros w0 w Hd Hs. unfold commit. now rewrite Hd, Hs, Nat.eqb_refl.
Qed.

(** A render whose dependencies changed runs the clean-up and the body. *)
Lemma commit_rerun : forall w0 w,
    sameDeps (hooks w0) (hooks w) = false ->
    commit w0 w = liveEffect (hooks w) (clearIntervalRef w).
Proof. intros w0 w Hd. unfold commit. now rewrite Hd. Qed.

Lemma sameDeps_camera_differs : forall a b,
    isCameraOn a <> isCameraOn b -> sameDeps a b = false.
Proof.
  intros a b H. unfold sameDeps.
  destruct (isCameraOn a), (isCameraOn b); simpl; congruence.
Qed.

Lemma sameDeps_muted_differs : forall a b,
    isMuted a <> isMuted b -> sameDeps a b = false.
Proof.
  intros a b H. unfold sameDeps.
  destruct (isMuted a), (isMuted b); simpl; rewrite ?andb_false_r; congruence.
Qed.

(** The effect, run after its clean-up: it leaves one interval of the new
    render when the camera is on and a pet or an identification is there,
    and none otherwise. *)
Lemma liveEffect_after_cleanup : forall r w,
    timerOwned w ->
    hooks (liveEffect r (clearIntervalRef w)) = hooks w
    /\ if isCameraOn r
          && (truthy_opt (currentManagingPetId r) || isSome (identifiedPetInfo r))
       then timers (liveEffect r (clearIntervalRef w)) = [(nextTimer w, r)]
            /\ interpretationIntervalRef (liveEffect r (clearIntervalRef w))
               = Some (nextTimer w)
       else timers (liveEffect r (clearIntervalRef w)) = [].
Proof.
  intros r w H.
  assert (Ho : timerOwned (clearIntervalRef w))
    by (apply owned_empty, clearIntervalRef_owned, H).
  unfold liveEffect.
  destruct (isCameraOn r
            && (truthy_opt (currentManagingPetId r)
                || isSome (identifiedPetInfo r))) eqn:Hc.
  - split.
    + now rewrite (proj1 (startLiveInterpretation_frame _ _)),
        (proj1 (clearIntervalRef_world _)).
    + apply andb_true_iff in Hc as [_ Hc].
      destruct (startLiveInterpretation_timers r Ho)
        as [(_ & Hp & Hi) | (Ht & Hr)].
      * rewrite Hp, Hi in Hc. discriminate.
      * now rewrite clearIntervalRef_nextTimer in Ht, Hr.
  - split.
    + now rewrite (proj1 (clearAndReset_world _)),
        (proj1 (clearIntervalRef_world _)).
    + now apply clearAndReset_timers.
Qed.

(** X8. Only the confirmation of an identification and the settling of an
    interpretation call reach the store props and [speak]: every other
    event - starting and stopping the camera, identifying, typing, selecting
    a pet, muting, a timer firing - leaves both call records as they are. In
    particular nothing is persisted during identification. *)
Theorem only_confirm_and_ticks_store_or_speak :
  forall (e : Event) (w : World),
    storesOrSpeaks e = false ->
    storeCalls (step e w) = storeCalls w
    /\ speakCalls (step e w) = speakCalls w.
Proof.
  intros e w He. unfold step.
  destruct (commit_frame w (handle e w)) as (_ & Hs & Hk & _).
  rewrite Hs, Hk. clear Hs Hk.
  event_cases e w; try discriminate He;
    rewrite ?(proj2 (startLiveInterpretation_frame _ _)),
      ?(proj1 (startLiveInterpretation_calls _ _)),
      ?(proj1 (clearIntervalRef_calls _)),
      ?(proj1 (proj2 (clearIntervalRef_calls _)));
    try (split; reflexivity);
    cbn;
    rewrite ?(proj1 (clearAndReset_calls _)),
      ?(proj1 (proj2 (clearAndReset_calls _)));
    split; reflexivity.
Qed.

Lemma only_confirm_and_ticks_witness :
  let w := run (trackP1 ++ [TimerFired 2 (Some frame)]) page in
  storesOrSpeaks ClickStopCamera = false
  /\ storeCalls (step ClickStopCamera w) = storeCalls w
  /\ speakCalls (step ClickStopCamera w) = speakCalls w.
Proof.
  intros w. split; [reflexivity|].
  exact (@only_confirm_and_ticks_store_or_speak ClickStopCamera w eq_refl).
Defined.

(** X9. A tick that gets no frame (the canvas has no context, or the data
    URL has an empty payload) does nothing: no interpretation call, no
    change of the state, no error shown. *)
Theorem tick_without_frame_is_silent :
  forall (w : World) (t : nat) (r : Hooks) (canvas : option jsstring),
    lookup t (timers w) = Some r ->
    isCameraOn r = true ->
    isSome (srcObject w) = true ->
    canvas = None \/ canvas = Some [] ->
    step (TimerFired t canvas) w = withTicks (S (ticks w)) w.
Proof.
  intros w t r canvas Hl Hon Hsrc Hc. unfold step.
  assert (Hh : handle (TimerFired t canvas) w = withTicks (S (ticks w)) w).
  { simpl handle. rewrite Hl. unfold tick, captureFrameAsBase64.
    change (srcObject (withTicks (S (ticks w)) w)) with (srcObject w).
    rewrite Hon, Hsrc. simpl. destruct Hc as [-> | ->]; reflexivity. }
  rewrite Hh. apply commit_same; [apply sameDeps_refl | reflexivity].
Qed.

Lemma tick_without_frame_witness :
  let w := run trackP1 page in
  exists r,
    lookup 2 (timers w) = Some r
    /\ isCameraOn r = true
    /\ isSome (srcObject w) = true
    /\ step (TimerFired 2 (Some [])) w = withTicks (S (ticks w)) w.
Proof.
  intros w.
  destruct (lookup 2 (timers w)) as [r|] eqn:Hr;
    [|vm_compute in Hr; discriminate Hr].
  assert (Hon : isCameraOn r = true)
    by (vm_compute in Hr; injection Hr as <-; reflexivity).
  exists r. split; [reflexivity|]. split; [exact Hon|].
  split; [reflexivity|].
  exact (@tick_without_frame_is_silent w 2 r (Some []) Hr Hon eq_refl
           (or_intror eq_refl)).
Defined.

(** X10. When the interval that fires was created in a render with the
    camera off, its callback clears the interval and does nothing else: no
    interpretation call is made and the live interpretation stops until a
    render starts a new interval. *)
Theorem tick_of_camera_off_render_clears_interval :
  forall hasClient activePetId sp es t r canvas,
    let w := run es (mount hasClient activePetId sp) in
    lookup t (timers w) = Some r ->
    isCameraOn r = false ->
    let w' := step (TimerFired t canvas) w in
    timers w' = []
    /\ liveCalls w' = liveCalls w
    /\ hooks w' = hooks w.
Proof.
  intros hasClient activePetId sp es t r canvas w Hl Hoff w'.
  assert (HI : Inv w) by apply run_inv, mount_inv.
  assert (Hh : handle (TimerFired t canvas) w
               = clearIntervalRef (withTicks (S (ticks w)) w)).
  { simpl handle. rewrite Hl. unfold tick. now rewrite Hoff. }
  assert (Hw' : w' = clearIntervalRef (withTicks (S (ticks w)) w)).
  { unfold w', step. rewrite Hh. apply commit_same.
    - rewrite (proj1 (clearIntervalRef_world _)). apply sameDeps_refl.
    - now rewrite (proj1 (proj2 (clearIntervalRef_calls _))). }
  rewrite Hw'. split; [|split].
  - apply clearIntervalRef_owned.
    apply owned_frame with (w := w);
      [reflexivity | reflexivity | apply (inv_owned HI)].
  - now rewrite (proj2 (proj2 (proj2 (clearIntervalRef_world _)))).
  - now rewrite (proj1 (clearIntervalRef_world _)).
Qed.

(** "Start Camera" is clicked twice before the permission is granted; the
    second camera call settles after the first and leaves an interval of the
    render of its click, in which the camera was off. *)
Lemma tick_of_camera_off_render_witness :
  let es := [SelectPet (js "p1"); ClickStartCamera true; ClickStartCamera true;
             CameraSettled 0 (Some 1); CameraSettled 1 (Some 1)] in
  let w := run es page in
  let w' := step (TimerFired 3 (Some frame)) w in
  runEnabled es page = Some w
  /\ phase (hooks w) = Tracking
  /\ exists r,
      lookup 3 (timers w) = Some r
      /\ isCameraOn r = false
      /\ timers w' = []
      /\ liveCalls w' = liveCalls w
      /\ hooks w' = hooks w.
Proof.
  intros es w w'. split; [vm_compute; reflexivity|]. split; [reflexivity|].
  destruct (lookup 3 (timers w)) as [r|] eqn:Hr;
    [|vm_compute in Hr; discriminate Hr].
  assert (Hoff : isCameraOn r = false)
    by (vm_compute in Hr; injection Hr as <-; reflexivity).
  exists r. split; [reflexivity|]. split; [exact Hoff|].
  exact (@tick_of_camera_off_render_clears_interval true None
           (SpeechService.load true twoVoices) es 3 r (Some frame) Hr Hoff).
Defined.

(** ** Starting the camera *)

(** X11. Where the browser has no [getUserMedia], "Start Camera" only
    clears the text and the log and shows the "not supported" error: the
    camera state, the pending camera calls and the interval are as
    before. *)
Theorem startCamera_unsupported_only_reports :
  forall w : World,
    step (ClickStartCamera false) w
    = withHooks
        (setError (Some (js "Camera access is not supported by your browser."))
           (setInterpretationLog []
              (setCurrentLiveInterpretation [] (setError None (hooks w)))))
        w.
Proof.
  intros w. unfold step.
  assert (Hh : handle (ClickStartCamera false) w
               = withHooks
                   (setError
                      (Some (js "Camera access is not supported by your browser."))
                      (setInterpretationLog []
                         (setCurrentLiveInterpretation []
                            (setError None (hooks w)))))
                   w) by reflexivity.
  rewrite Hh. apply commit_same; [exact (sameDeps_refl (hooks w)) | reflexivity].
Qed.

Lemma step_CameraSettled : forall w call r0 result,
    lookup call (cameraCalls w) = Some r0 ->
    handle (CameraSettled call result) w
    = startCameraSettled r0 result
        (withCameraCalls (remove call (cameraCalls w)) w).
Proof. intros w call r0 result H. simpl handle. now rewrite H. Qed.

(** X12. When the camera request is rejected, the error asks for the
    permission, the session is Idle, no interval is live, and no stream was
    added. *)
Theorem startCamera_rejected_stays_idle :
  forall hasClient activePetId sp es call r0,
    let w := run es (mount hasClient activePetId sp) in
    lookup call (cameraCalls w) = Some r0 ->
    let w' := step (CameraSettled call None) w in
    error (hooks w')
    = Some (js "Could not access camera. Please ensure permission is granted and no other app is using it.")
    /\ phase (hooks w') = Idle
    /\ timers w' = []
    /\ mediaStreams w' = mediaStreams w.
Proof.
  intros hasClient activePetId sp es call r0 w Hl w'.
  assert (HI' : Inv w') by (apply step_inv, run_inv, mount_inv).
  destruct (commit_frame w (handle (CameraSettled call None) w))
    as (Hh & _ & _ & _ & Hm & _).
  fold (step (CameraSettled call None) w) in Hh, Hm. fold w' in Hh, Hm.
  rewrite (@step_CameraSettled w call r0 None Hl) in Hh, Hm.
  assert (Hoff : isCameraOn (hooks w') = false) by now rewrite Hh.
  split; [now rewrite Hh|]. split; [unfold phase; now rewrite Hoff|].
  split; [now apply (inv_off HI')|]. now rewrite Hm.
Qed.

Lemma truthy_opt_pet_phase : forall h,
    isCameraOn h = true -> truthy_opt (currentManagingPetId h) = false ->
    identifiedPetInfo h <> None -> phase h = AwaitingConfirmation.
Proof.
  intros h Hon Hp Hi. unfold phase. rewrite Hon, Hp. simpl.
  destruct (identifiedPetInfo h); [reflexivity | congruence].
Qed.

(** X13. When the camera request is granted while the camera is off, the
    component holds the new stream, all of whose tracks are live, shows it
    in the video element, and the camera is on. If a pet is bound or an
    identification is pending, exactly one interval is live and it was
    created by the new render (the one the handler started from the render
    of the click is replaced); otherwise no interval is live. *)
Theorem startCamera_granted_starts_one_fresh_interval :
  forall hasClient activePetId sp es call r0 n,
    let w := run es (mount hasClient activePetId sp) in
    lookup call (cameraCalls w) = Some r0 ->
    isCameraOn (hooks w) = false ->
    let w' := step (CameraSettled call (Some n)) w in
    isCameraOn (hooks w') = true
    /\ stream (hooks w') = Some (List.length (mediaStreams w))
    /\ srcObject w' = Some (List.length (mediaStreams w))
    /\ mediaStreams w' = mediaStreams w ++ [repeat true n]
    /\ currentManagingPetId (hooks w') = currentManagingPetId (hooks w)
    /\ if truthy_opt (currentManagingPetId (hooks w))
          || isSome (identifiedPetInfo (hooks w))
       then exists t, timers w' = [(t, hooks w')]
                      /\ interpretationIntervalRef w' = Some t
       else timers w' = [].
Proof.
  intros hasClient activePetId sp es call r0 n w Hl Hoff w'.
  assert (HI : Inv w) by apply run_inv, mount_inv.
  set (X := set (setIsCameraOn true)
              (withSrcObject (Some (List.length (mediaStreams w)))
                 (set (setStream (Some (List.length (mediaStreams w))))
                    (withMediaStreams (mediaStreams w ++ [repeat true n])
                       (withCameraCalls (remove call (cameraCalls w)) w))))).
  set (w1 := handle (CameraSettled call (Some n)) w).
  assert (Hw1 : w1 = X \/ w1 = startLiveInterpretation r0 X).
  { unfold w1. rewrite (@step_CameraSettled w call r0 (Some n) Hl).
    unfold startCameraSettled, seq.
    destruct (negb (truthy_opt (currentManagingPetId r0)));
      [left | right]; reflexivity. }
  assert (HX : timerOwned X)
    by (apply owned_frame with (w := w);
        [reflexivity | reflexivity | apply (inv_owned HI)]).
  assert (F : hooks w1 = hooks X /\ mediaStreams w1 = mediaStreams X
              /\ srcObject w1 = srcObject X /\ timerOwned w1).
  { destruct Hw1 as [-> | ->]; [auto|].
    rewrite (proj1 (startLiveInterpretation_frame _ _)),
      (proj1 (startLiveInterpretation_world _ _)),
      (proj1 (proj2 (proj2 (proj2 (startLiveInterpretation_calls _ _))))).
    repeat split. now apply startLiveInterpretation_owned. }
  destruct F as (Hh1 & Hm1 & Hs1 & Ho1).
  assert (Hw' : w' = liveEffect (hooks w1) (clearIntervalRef w1)).
  { unfold w', step. fold w1. apply commit_rerun.
    apply sameDeps_camera_differs. rewrite Hh1.
    change (isCameraOn (hooks X)) with true. rewrite Hoff. discriminate. }
  destruct (commit_frame w w1) as (_ & _ & _ & _ & Hcm & _ & _ & _ & Hcs).
  change (commit w w1) with w' in Hcm, Hcs.
  destruct (liveEffect_after_cleanup (hooks w1) Ho1) as (Hh' & Ht).
  rewrite <- Hw' in Hh', Ht.
  assert (Hhooks : hooks w' = hooks X) by now rewrite Hh', Hh1.
  split; [now rewrite Hhooks|]. split; [now rewrite Hhooks|].
  split; [now rewrite Hcs, Hs1|]. split; [now rewrite Hcm, Hm1|].
  split; [now rewrite Hhooks|].
  rewrite Hh1 in Ht.
  change (isCameraOn (hooks X)) with true in Ht.
  change (currentManagingPetId (hooks X)) with (currentManagingPetId (hooks w)) in Ht.
  change (identifiedPetInfo (hooks X)) with (identifiedPetInfo (hooks w)) in Ht.
  simpl andb in Ht.
  destruct (truthy_opt (currentManagingPetId (hooks w))
            || isSome (identifiedPetInfo (hooks w))).
  - exists (nextTimer w1). now rewrite Hhooks.
  - exact Ht.
Qed.

(** ** Identifying *)

(** X14. "Identify" without a frame - the camera is off, the canvas has no
    context, or the data URL has an empty payload - makes no identification
    call: it clears the pending identification and shows the "could not
    capture" error. *)
Theorem identify_without_frame_makes_no_call :
  forall (w : World) (canvas : option jsstring),
    isCameraOn (hooks w) = false \/ canvas = None \/ canvas = Some [] ->
    let w' := step (ClickIdentify canvas) w in
    error (hooks w') = Some (js "Could not capture frame from video.")
    /\ identifiedPetInfo (hooks w') = None
    /\ isIdentifying (hooks w') = isIdentifying (hooks w)
    /\ identifyCalls w' = identifyCalls w.
Proof.
  intros w canvas H w'.
  assert (Hh : handle (ClickIdentify canvas) w
               = set (setError (Some (js "Could not capture frame from video.")))
                   (set (setIdentifiedPetInfo None) (set (setError None) w))).
  { simpl handle. unfold handleIdentifyPet, seq, captureFrameAsBase64.
    destruct H as [-> | [-> | ->]]; [reflexivity| |];
      destruct (isCameraOn (hooks w)); reflexivity. }
  destruct (commit_frame w (handle (ClickIdentify canvas) w)) as (Hhk & _).
  destruct (commit_calls w (handle (ClickIdentify canvas) w)) as (_ & Hic & _).
  fold (step (ClickIdentify canvas) w) in Hhk, Hic. fold w' in Hhk, Hic.
  rewrite Hh in Hhk, Hic. rewrite Hhk, Hic. repeat split; reflexivity.
Qed.

Lemma identify_without_frame_witness :
  let w := run [ClickStartCamera true; CameraSettled 0 (Some 1)] page in
  let w' := step (ClickIdentify (Some [])) w in
  (isCameraOn (hooks w) = false \/ Some [] = @None jsstring
   \/ Some (@nil N) = Some [])
  /\ error (hooks w') = Some (js "Could not capture frame from video.")
  /\ identifiedPetInfo (hooks w') = None
  /\ isIdentifying (hooks w') = isIdentifying (hooks w)
  /\ identifyCalls w' = identifyCalls w.
Proof.
  intros w w'.
  assert (H : isCameraOn (hooks w) = false \/ Some [] = @None jsstring
              \/ Some (@nil N) = Some [])
    by (right; right; reflexivity).
  split; [exact H|].
  exact (@identify_without_frame_makes_no_call w (Some []) H).
Defined.

Lemma sameDeps_info_appears : forall a b i,
    identifiedPetInfo a = None -> identifiedPetInfo b = Some i ->
    sameDeps a b = false.
Proof.
  intros a b i Ha Hb. unfold sameDeps. rewrite Ha, Hb. simpl.
  now rewrite andb_false_r.
Qed.

(** X15. When an identification settles with a result while the camera is
    on and no pet is bound, the session awaits confirmation: the result is
    the pending identification, the proposed name is the identified type
    unless that is empty or "Unknown", and nothing was stored. From this
    render on one interval is live: the interpretation cycle runs while the
    identification waits for its name. *)
Theorem identification_result_awaits_confirmation :
  forall hasClient activePetId sp es call info,
    let w := run es (mount hasClient activePetId sp) in
    existsb (Nat.eqb call) (identifyCalls w) = true ->
    isCameraOn (hooks w) = true ->
    truthy_opt (currentManagingPetId (hooks w)) = false ->
    identifiedPetInfo (hooks w) = None ->
    let w' := step (IdentifySettled call (Return info)) w in
    phase (hooks w') = AwaitingConfirmation
    /\ identifiedPetInfo (hooks w') = Some info
    /\ petName (hooks w')
       = match animalType info with
         | Some a => if truthy a && negb (str_eqb a (js "Unknown"))
                     then a else []
         | None => []
         end
    /\ isIdentifying (hooks w') = false
    /\ storeCalls w' = storeCalls w
    /\ exists t, timers w' = [(t, hooks w')]
                 /\ interpretationIntervalRef w' = Some t.
Proof.
  intros hasClient activePetId sp es call info w Hc Hon Hpet Hinfo w'.
  assert (HI : Inv w) by apply run_inv, mount_inv.
  set (w1 := handle (IdentifySettled call (Return info)) w).
  set (name' := match animalType info with
                | Some a => if truthy a && negb (str_eqb a (js "Unknown"))
                            then a else []
                | None => []
                end).
  assert (F : hooks w1
              = setIsIdentifying false
                  (setPetName name' (setIdentifiedPetInfo (Some info) (hooks w)))
              /\ storeCalls w1 = storeCalls w
              /\ timers w1 = timers w
              /\ interpretationIntervalRef w1 = interpretationIntervalRef w).
  { unfold w1, name'. simpl handle. rewrite Hc.
    unfold handleIdentifyPetSettled, seq.
    destruct (animalType info) as [a|];
      [destruct (truthy a && negb (str_eqb a (js "Unknown")))|];
      repeat split; reflexivity. }
  destruct F as (Hh1 & Hs1 & Ht1 & Hr1).
  assert (Ho1 : timerOwned w1) by exact (owned_frame _ Ht1 Hr1 (inv_owned HI)).
  assert (Hw' : w' = liveEffect (hooks w1) (clearIntervalRef w1)).
  { unfold w', step. fold w1. apply commit_rerun.
    apply sameDeps_info_appears with (i := info); [exact Hinfo|].
    now rewrite Hh1. }
  destruct (commit_frame w w1) as (_ & Hcs & _).
  change (commit w w1) with w' in Hcs.
  destruct (liveEffect_after_cleanup (hooks w1) Ho1) as (Hh' & Ht).
  rewrite <- Hw' in Hh', Ht.
  assert (Hhooks : hooks w'
                   = setIsIdentifying false
                       (setPetName name'
                          (setIdentifiedPetInfo (Some info) (hooks w))))
    by now rewrite Hh', Hh1.
  split.
  { apply truthy_opt_pet_phase; rewrite Hhooks; simpl;
      [exact Hon | exact Hpet | discriminate]. }
  split; [now rewrite Hhooks|]. split; [now rewrite Hhooks|].
  split; [now rewrite Hhooks|]. split; [now rewrite Hcs, Hs1|].
  rewrite Hh1 in Ht. simpl in Ht. rewrite Hon, orb_true_r in Ht. simpl in Ht.
  exists (nextTimer w1). now rewrite Hhooks.
Qed.

(** ** Muting and choosing a pet *)

(** X16. In state Tracking, the mute button flips the flag and the render
    that follows replaces the interval by one created with the new flag, so
    every later tick sees it. The calls that are pending keep the render
    that started them, and speech in progress is not cancelled. *)
Theorem mute_restarts_interval_with_new_flag :
  forall hasClient activePetId sp es,
    let w := run es (mount hasClient activePetId sp) in
    phase (hooks w) = Tracking ->
    let w' := step ClickMute w in
    isMuted (hooks w') = negb (isMuted (hooks w))
    /\ phase (hooks w') = Tracking
    /\ (exists t, timers w' = [(t, hooks w')]
                  /\ interpretationIntervalRef w' = Some t)
    /\ liveCalls w' = liveCalls w
    /\ speech w' = speech w.
Proof.
  intros hasClient activePetId sp es w Hp w'.
  assert (HI : Inv w) by apply run_inv, mount_inv.
  destruct (proj1 (phase_tracking _) Hp) as (Hon & Hpet).
  set (w1 := handle ClickMute w).
  assert (Hh1 : hooks w1 = setIsMuted (negb (isMuted (hooks w))) (hooks w))
    by reflexivity.
  assert (Ho1 : timerOwned w1)
    by (apply owned_frame with (w := w);
        [reflexivity | reflexivity | apply (inv_owned HI)]).
  assert (Hw' : w' = liveEffect (hooks w1) (clearIntervalRef w1)).
  { unfold w', step. fold w1. apply commit_rerun.
    apply sameDeps_muted_differs. rewrite Hh1. simpl.
    destruct (isMuted (hooks w)); discriminate. }
  destruct (commit_frame w w1) as (_ & _ & _ & Hlc & _ & Hsp & _).
  change (commit w w1) with w' in Hlc, Hsp.
  destruct (liveEffect_after_cleanup (hooks w1) Ho1) as (Hh' & Ht).
  rewrite <- Hw' in Hh', Ht.
  assert (Hhooks : hooks w' = setIsMuted (negb (isMuted (hooks w))) (hooks w))
    by now rewrite Hh', Hh1.
  split; [now rewrite Hhooks|].
  split; [rewrite Hhooks; exact Hp|].
  split; [|split; [exact Hlc | exact Hsp]].
  rewrite Hh1 in Ht. simpl in Ht. rewrite Hon, Hpet in Ht. simpl in Ht.
  exists (nextTimer w1). now rewrite Hhooks.
Qed.

(** X17. Choosing a stored pet in the selector while the camera is off
    binds it and clears the pending identification, the typed name, the
    error, the log and the text; no interval is started and nothing is
    stored or spoken. Choosing the empty option only unbinds the pet: the
    log and the text of the previous pet stay. *)
Theorem selector_binds_and_clears_or_only_unbinds :
  forall hasClient activePetId sp es value,
    let w := run es (mount hasClient activePetId sp) in
    isCameraOn (hooks w) = false ->
    let w' := step (SelectPet value) w in
    hooks w'
    = (if truthy value
       then setCurrentLiveInterpretation []
              (setInterpretationLog []
                 (setError None
                    (setPetName []
                       (setIdentifiedPetInfo None
                          (setCurrentManagingPetId (Some value) (hooks w))))))
       else setCurrentManagingPetId None (hooks w))
    /\ timers w' = []
    /\ storeCalls w' = storeCalls w
    /\ speakCalls w' = speakCalls w.
Proof.
  intros hasClient activePetId sp es value w Hoff w'.
  assert (HI' : Inv w') by (apply step_inv, run_inv, mount_inv).
  set (w1 := handle (SelectPet value) w).
  assert (F : hooks w1
              = (if truthy value
                 then setCurrentLiveInterpretation []
                        (setInterpretationLog []
                           (setError None
                              (setPetName []
                                 (setIdentifiedPetInfo None
                                    (setCurrentManagingPetId (Some value)
                                       (hooks w))))))
                 else setCurrentManagingPetId None (hooks w))
              /\ storeCalls w1 = storeCalls w
              /\ speakCalls w1 = speakCalls w).
  { unfold w1. simpl handle. unfold onSelectChange, selectExistingPet, seq.
    rewrite Hoff. destruct (truthy value); repeat split; reflexivity. }
  destruct F as (Hh1 & Hs1 & Hk1).
  destruct (commit_frame w w1) as (Hh & Hs & Hk & _).
  change (commit w w1) with w' in Hh, Hs, Hk.
  assert (Hoff' : isCameraOn (hooks w') = false)
    by (rewrite Hh, Hh1; destruct (truthy value); exact Hoff).
  split; [now rewrite Hh, Hh1|].
  split; [now apply (inv_off HI')|].
  split; [now rewrite Hs, Hs1 | now rewrite Hk, Hk1].
Qed.

(** ** Witnesses *)

Lemma startCamera_rejected_witness :
  let w := run [ClickStartCamera true] page in
  let w' := step (CameraSettled 0 None) w in
  lookup 0 (cameraCalls w) = Some (hooks page)
  /\ error (hooks w')
     = Some (js "Could not access camera. Please ensure permission is granted and no other app is using it.")
  /\ phase (hooks w') = Idle
  /\ timers w' = []
  /\ mediaStreams w' = mediaStreams w.
Proof.
  intros w w'.
  assert (H : lookup 0 (cameraCalls w) = Some (hooks page))
    by (vm_compute; reflexivity).
  split; [exact H|].
  exact (@startCamera_rejected_stays_idle true None (SpeechService.load true twoVoices)
           [ClickStartCamera true] 0 (hooks page) H).
Defined.

Lemma startCamera_granted_witness :
  let w := run [SelectPet (js "p1"); ClickStartCamera true] page in
  let w' := step (CameraSettled 0 (Some 1)) w in
  lookup 0 (cameraCalls w) = Some (hooks (run [SelectPet (js "p1")] page))
  /\ isCameraOn (hooks w) = false
  /\ isCameraOn (hooks w') = true
  /\ stream (hooks w') = Some (List.length (mediaStreams w))
  /\ srcObject w' = Some (List.length (mediaStreams w))
  /\ mediaStreams w' = mediaStreams w ++ [repeat true 1]
  /\ currentManagingPetId (hooks w') = currentManagingPetId (hooks w)
  /\ if truthy_opt (currentManagingPetId (hooks w))
        || isSome (identifiedPetInfo (hooks w))
     then exists t, timers w' = [(t, hooks w')]
                    /\ interpretationIntervalRef w' = Some t
     else timers w' = [].
Proof.
  intros w w'.
  assert (H : lookup 0 (cameraCalls w)
              = Some (hooks (run [SelectPet (js "p1")] page)))
    by (vm_compute; reflexivity).
  assert (Hoff : isCameraOn (hooks w) = false) by (vm_compute; reflexivity).
  split; [exact H|]. split; [exact Hoff|].
  exact (@startCamera_granted_starts_one_fresh_interval true None
           (SpeechService.load true twoVoices)
           [SelectPet (js "p1"); ClickStartCamera true]
           0 (hooks (run [SelectPet (js "p1")] page)) 1 H Hoff).
Defined.

Lemma identification_result_witness :
  let es := [ClickStartCamera true; CameraSettled 0 (Some 1);
             ClickIdentify (Some frame)] in
  let w := run es page in
  let w' := step (IdentifySettled 1 (Return dog)) w in
  existsb (Nat.eqb 1) (identifyCalls w) = true
  /\ isCameraOn (hooks w) = true
  /\ truthy_opt (currentManagingPetId (hooks w)) = false
  /\ identifiedPetInfo (hooks w) = None
  /\ phase (hooks w') = AwaitingConfirmation
  /\ identifiedPetInfo (hooks w') = Some dog
  /\ petName (hooks w')
     = match animalType dog with
       | Some a => if truthy a && negb (str_eqb a (js "Unknown"))
                   then a else []
       | None => []
       end
  /\ isIdentifying (hooks w') = false
  /\ storeCalls w' = storeCalls w
  /\ exists t, timers w' = [(t, hooks w')]
               /\ interpretationIntervalRef w' = Some t.
Proof.
  intros es w w'.
  assert (H1 : existsb (Nat.eqb 1) (identifyCalls w) = true)
    by (vm_compute; reflexivity).
  assert (H2 : isCameraOn (hooks w) = true) by (vm_compute; reflexivity).
  assert (H3 : truthy_opt (currentManagingPetId (hooks w)) = false)
    by (vm_compute; reflexivity).
  assert (H4 : identifiedPetInfo (hooks w) = None)
    by (vm_compute; reflexivity).
  split; [exact H1|]. split; [exact H2|]. split; [exact H3|].
  split; [exact H4|].
  exact (@identification_result_awaits_confirmation true None
           (SpeechService.load true twoVoices) es 1 dog H1 H2 H3 H4).
Defined.

Lemma mute_restarts_interval_witness :
  let w := run trackP1 page in
  let w' := step ClickMute w in
  phase (hooks w) = Tracking
  /\ isMuted (hooks w') = negb (isMuted (hooks w))
  /\ phase (hooks w') = Tracking
  /\ (exists t, timers w' = [(t, hooks w')]
                /\ interpretationIntervalRef w' = Some t)
  /\ liveCalls w' = liveCalls w
  /\ speech w' = speech w.
Proof.
  intros w w'.
  assert (H : phase (hooks w) = Tracking) by (vm_compute; reflexivity).
  split; [exact H|].
  exact (@mute_restarts_interval_with_new_flag true None
           (SpeechService.load true twoVoices) trackP1 H).
Defined.

Lemma selector_binds_and_clears_witness :
  let w := run [] page in
  let w' := step (SelectPet (js "p1")) w in
  isCameraOn (hooks w) = false
  /\ hooks w'
     = (if truthy (js "p1")
        then setCurrentLiveInterpretation []
               (setInterpretationLog []
                  (setError None
                     (setPetName []
                        (setIdentifiedPetInfo None
                           (setCurrentManagingPetId (Some (js "p1"))
                              (hooks w))))))
        else setCurrentManagingPetId None (hooks w))
  /\ timers w' = []
  /\ storeCalls w' = storeCalls w
  /\ speakCalls w' = speakCalls w.
Proof.
  intros w w'.
  assert (H : isCameraOn (hooks w) = false) by (vm_compute; reflexivity).
  split; [exact H|].
  exact (@selector_binds_and_clears_or_only_unbinds true None
           (SpeechService.load true twoVoices) [] (js "p1") H).
Defined.

End MoreLiveSession.

(* ================================================================== *)
(** * The stored pets *)
(* ================================================================== *)

Section Store.

Import LocalStorageService App.

Lemma savePets_savePets : forall a b ls,
    savePets a (savePets b ls) = savePets a ls.
Proof.
  intros a b ls. unfold savePets.
  destruct (writable ls) eqn:H; simpl; [reflexivity | now rewrite H].
Qed.

Lemma loadPets_savePets : forall l ls,
    loadPets (savePets l ls) = if writable ls then l else loadPets ls.
Proof. intros l ls. unfold savePets. now destruct (writable ls). Qed.

Lemma find_unused : forall i l,
    unused i l = true -> find (fun p => str_eqb (petId p) i) l = None.
Proof.
  induction l as [|p l IH]; simpl; [reflexivity|].
  intros H. apply andb_true_iff in H as [Hp Hl].
  destruct (str_eqb (petId p) i); [discriminate|]. now apply IH.
Qed.

Lemma find_snoc : forall (f : Pet -> bool) l p,
    find f (l ++ [p])
    = match find f l with
      | Some q => Some q
      | None => if f p then Some p else None
      end.
Proof.
  intros f l p. induction l as [|q l IH]; simpl; [reflexivity|].
  now destruct (f q).
Qed.



Lemma unused_filter : forall i l,
    unused i (filter (fun p => negb (str_eqb (petId p) i)) l) = true.
Proof.
  intros i l. induction l as [|p l IH]; simpl; [reflexivity|].
  destruct (str_eqb (petId p) i) eqn:Ei; simpl; [exact IH|].
  now rewrite Ei, IH.
Qed.


Lemma map_unused : forall i (f : Pet -> Pet) l,
    unused i l = true ->
    map (fun p => if str_eqb (petId p) i then f p else p) l = l.
Proof.
  intros i f l. induction l as [|p l IH]; simpl; [reflexivity|].
  intros H. apply andb_true_iff in H as [Hp Hl].
  destruct (str_eqb (petId p) i); [discriminate|]. now rewrite IH.
Qed.

Lemma deletePetFromStorage_found_none : forall i ls,
    writable ls = true ->
    getPetById i (deletePetFromStorage i ls) = None
    /\ loadPets (deletePetFromStorage i ls)
       = filter (fun p => negb (str_eqb (petId p) i)) (loadPets ls).
Proof.
  intros i ls Hw. unfold deletePetFromStorage, getPetById.
  rewrite !loadPets_savePets, Hw. split; [|reflexivity].
  apply find_unused, unused_filter.
Qed.





(** ** App.tsx *)

Lemma handleSavePets_twice : forall a b st,
    handleSavePets a (handleSavePets b st) = handleSavePets a st.
Proof.
  intros a b st. unfold handleSavePets. simpl. now rewrite savePets_savePets.
Qed.

(** What a single call of a store prop saves. *)
Lemma callProps_single : forall renderPets c,
    exists updatedPets,
      (forall st, callProps renderPets [c] st = handleSavePets updatedPets st)
      /\ (forall i p,
             find (fun q => str_eqb (petId q) i) renderPets = Some p ->
             exists p',
               find (fun q => str_eqb (petId q) i) updatedPets = Some p'
               /\ name p' = name p).
Proof.
  intros renderPets [newPet now iso | i0 entry now iso].
  - exists (renderPets ++ [petWithId newPet now iso]). split; [reflexivity|].
    intros i p H. exists p. now rewrite find_snoc, H.
  - exists (map (fun p => if str_eqb (petId p) i0
                          then withEntry entry now iso p else p) renderPets).
    split; [reflexivity|].
    intros i p. induction renderPets as [|q l IH]; simpl; [discriminate|].
    destruct (str_eqb (petId q) i0) eqn:E0; simpl.
    + destruct (str_eqb (petId q) i) eqn:E; [|exact IH].
      intros H. injection H as <-. eexists. split; reflexivity.
    + destruct (str_eqb (petId q) i) eqn:E; [|exact IH].
      intros H. injection H as <-. eexists. split; reflexivity.
Qed.

Lemma callProps_cons : forall renderPets c calls st,
    callProps renderPets (c :: calls) st
    = callProps renderPets calls (callProps renderPets [c] st).
Proof. intros renderPets [? ? ?|? ? ? ?] calls st; reflexivity. Qed.

Lemma callProps_last : forall renderPets calls c st,
    callProps renderPets (calls ++ [c]) st = callProps renderPets [c] st.
Proof.
  intros renderPets calls c. induction calls as [|c0 calls IH]; intros st.
  - reflexivity.
  - rewrite <- app_comm_cons, callProps_cons, IH.
    destruct (callProps_single renderPets c) as (u & Hu & _).
    destruct (callProps_single renderPets c0) as (u0 & Hu0 & _).
    now rewrite !Hu, Hu0, handleSavePets_twice.
Qed.

Lemma addInterpretationToPet_unused : forall renderPets i entry now iso st,
    unused i renderPets = true ->
    addInterpretationToPet renderPets i entry now iso st
    = handleSavePets renderPets st.
Proof.
  intros renderPets i entry now iso st H. unfold addInterpretationToPet.
  now rewrite map_unused.
Qed.

(** X20. Of the store calls that a view makes in one handler, only the
    last one counts: every prop computes from the pets of the render that
    created it and saves the whole list, so the state and the storage end
    as if the last call had been the only one. *)
Theorem only_last_store_call_of_a_handler_counts :
  forall (calls : list PropCall) (c : PropCall) (st : State),
    handler (calls ++ [c]) st = handler [c] st.
Proof. intros calls c st. unfold handler. apply callProps_last. Qed.

(** X21. [addPet] followed in the same handler by [addInterpretationToPet]
    for the returned id loses the new pet: the second call maps over the
    pets of the render, which has no pet of that id yet, and saves them
    unchanged. Made from the next render instead, the second call finds the
    pet and appends the entry. *)
Theorem new_pet_is_lost_when_entry_follows_in_same_handler :
  forall (newPet : NewPet) (entry : NewEntry) (now iso now' iso' : jsstring)
         (st : State),
    unused now (pets st) = true ->
    handler [CallAddPet newPet now iso;
             CallAddInterpretationToPet now entry now' iso'] st
    = handleSavePets (pets st) st
    /\ handler [CallAddInterpretationToPet now entry now' iso']
         (handler [CallAddPet newPet now iso] st)
       = handleSavePets
           (pets st ++ [withEntry entry now' iso' (petWithId newPet now iso)])
           st.
Proof.
  intros newPet entry now iso now' iso' st Hu. split.
  - unfold handler. simpl callProps.
    rewrite addInterpretationToPet_unused by exact Hu.
    apply handleSavePets_twice.
  - unfold handler. simpl. unfold addInterpretationToPet. simpl pets.
    rewrite map_app, map_unused by exact Hu. simpl.
    rewrite str_eqb_refl. apply handleSavePets_twice.
Qed.

Lemma new_pet_is_lost_witness :
  let rex := {| newPetName := js "Rex"; newPetAnimalType := Some (js "Dog");
                newPetBreed := None; newPetThumbnailUrl := None |} in
  let entry := {| newText := js "Identified as Dog.";
                  newContext := LiveVideoView.Identification;
                  newVideoFileName := None |} in
  let st := mount {| item := NoItem; writable := true |} in
  unused (js "1717171717171") (pets st) = true
  /\ handler [CallAddPet rex (js "1717171717171") (js "2024-05-31T16:08:37.171Z");
              CallAddInterpretationToPet (js "1717171717171") entry
                (js "1717171717172") (js "2024-05-31T16:08:37.172Z")] st
     = handleSavePets (pets st) st
  /\ handler [CallAddInterpretationToPet (js "1717171717171") entry
                (js "1717171717172") (js "2024-05-31T16:08:37.172Z")]
       (handler [CallAddPet rex (js "1717171717171")
                   (js "2024-05-31T16:08:37.171Z")] st)
     = handleSavePets
         (pets st
          ++ [withEntry entry (js "1717171717172")
                (js "2024-05-31T16:08:37.172Z")
                (petWithId rex (js "1717171717171")
                   (js "2024-05-31T16:08:37.171Z"))])
         st.
Proof.
  intros rex entry st.
  assert (H : unused (js "1717171717171") (pets st) = true) by reflexivity.
  split; [exact H|].
  exact (@new_pet_is_lost_when_entry_follows_in_same_handler rex entry
           (js "1717171717171") (js "2024-05-31T16:08:37.171Z")
           (js "1717171717172") (js "2024-05-31T16:08:37.172Z") st H).
Defined.

(** ** views/PetCatalogView.tsx *)

Lemma includes_nil : forall s, includes s [] = true.
Proof. intros [|c s]; reflexivity. Qed.

(** X22. The catalog deletes from the storage and from its own list, not
    from the pets of [App]: after a confirmed delete the pet is in neither,
    but the next store call of any view saves the pets of [App] again, and
    the deleted pet is back in the storage under its name. *)
Theorem catalog_delete_is_undone_by_next_store_call :
  forall (st : State) (i : jsstring) (p : Pet) (c : PropCall),
    writable (storage st) = true ->
    find (fun q => str_eqb (petId q) i) (pets st) = Some p ->
    let cat := PetCatalogView.handleDeletePet i true
                 (PetCatalogView.mount (pets st) (storage st)) in
    getPetById i (PetCatalogView.storage cat) = None
    /\ find (fun q => str_eqb (petId q) i) (PetCatalogView.pets cat) = None
    /\ exists p',
        getPetById i
          (storage (handler [c] {| pets := pets st;
                                   storage := PetCatalogView.storage cat |}))
        = Some p'
        /\ name p' = name p.
Proof.
  intros st i p c Hw Hp cat.
  assert (Hst : PetCatalogView.storage cat = deletePetFromStorage i (storage st))
    by reflexivity.
  split; [|split].
  - rewrite Hst.
    exact (proj1 (@deletePetFromStorage_found_none i (storage st) Hw)).
  - apply find_unused. exact (unused_filter i (pets st)).
  - destruct (callProps_single (pets st) c) as (u & Hu & Hfind).
    destruct (Hfind i p Hp) as (p' & Hp' & Hn).
    exists p'. split; [|exact Hn].
    unfold handler. simpl pets. rewrite Hu. unfold handleSavePets.
    cbn [storage]. rewrite Hst. unfold deletePetFromStorage, getPetById.
    now rewrite savePets_savePets, loadPets_savePets, Hw.
Qed.

Lemma catalog_delete_witness :
  let rex := petWithId {| newPetName := js "Rex"; newPetAnimalType := None;
                          newPetBreed := None; newPetThumbnailUrl := None |}
               (js "1") (js "2024-05-31T16:08:37.171Z") in
  let st := mount {| item := PetsJson [rex]; writable := true |} in
  let c := CallAddPet {| newPetName := js "Tom"; newPetAnimalType := None;
                         newPetBreed := None; newPetThumbnailUrl := None |}
             (js "2") (js "2024-06-01T10:00:00.000Z") in
  let cat := PetCatalogView.handleDeletePet (js "1") true
               (PetCatalogView.mount (pets st) (storage st)) in
  writable (storage st) = true
  /\ find (fun q => str_eqb (petId q) (js "1")) (pets st) = Some rex
  /\ getPetById (js "1") (PetCatalogView.storage cat) = None
  /\ find (fun q => str_eqb (petId q) (js "1")) (PetCatalogView.pets cat) = None
  /\ exists p',
      getPetById (js "1")
        (storage (handler [c] {| pets := pets st;
                                 storage := PetCatalogView.storage cat |}))
      = Some p'
      /\ name p' = name rex.
Proof.
  intros rex st c cat.
  assert (Hw : writable (storage st) = true) by reflexivity.
  assert (Hp : find (fun q => str_eqb (petId q) (js "1")) (pets st) = Some rex)
    by reflexivity.
  split; [exact Hw|]. split; [exact Hp|].
  exact (@catalog_delete_is_undone_by_next_store_call st (js "1") rex c Hw Hp).
Defined.

Lemma filter_all : forall (f : Pet -> bool) l,
    (forall p, f p = true) -> filter f l = l.
Proof.
  intros f l H. induction l as [|p l IH]; simpl; [reflexivity|].
  now rewrite H, IH.
Qed.

(** X23. The catalog opens with an empty search box, which every pet
    matches: it lists all the pets it was given, in their order, and after a
    confirmed delete all of them but those of the deleted id. *)
Theorem catalog_lists_every_pet_until_deleted :
  forall (l : list Pet) (ls : LocalStorage) (i : jsstring),
    PetCatalogView.filteredPets (PetCatalogView.mount l ls) = l
    /\ PetCatalogView.filteredPets
         (PetCatalogView.handleDeletePet i true (PetCatalogView.mount l ls))
       = filter (fun p => negb (str_eqb (petId p) i)) l.
Proof.
  intros l ls i. unfold PetCatalogView.filteredPets. simpl.
  split; apply filter_all; intros p; now rewrite includes_nil.
Qed.

End Store.

(* ================================================================== *)
(** * The upload view *)
(* ================================================================== *)

Section Upload.

Import GeminiService VideoUploadView.

(** X24. A click on "Interpret" with a file chosen always ends with
    [isLoading] false. An interpretation is shown only for an answer of the
    backend that does not trim to the empty string; then no error is shown
    and the store calls of the association are made. In every other case
    the message of the error that [interpretPetVideo] threw is shown and no
    store prop is called. *)
Theorem upload_click_shows_answer_or_error :
  forall (ai : bool) (fileData : option jsstring) (backend : GenerateContent)
         (now iso now' iso' fileName : jsstring) (st : State),
    videoFile (hooks st) = Some fileName ->
    let st' := interpretClick ai fileData backend now iso now' iso' st in
    isLoading (hooks st') = false
    /\ match interpretation (hooks st') with
       | Some t =>
           ai = true /\ fileData <> None /\ backend = Responded (Some t)
           /\ trim t <> []
           /\ error (hooks st') = None
           /\ propCalls st'
              = propCalls st
                ++ associate (hooks st) fileName t now iso now' iso'
       | None =>
           (exists m, error (hooks st') = Some m
                      /\ interpretPetVideo ai fileName fileData backend
                         = Throw (ErrorObj m))
           /\ propCalls st' = propCalls st
       end.
Proof.
  intros ai fileData backend now iso now' iso' fileName st Hf st'.
  unfold st', interpretClick, handleInterpretPet. rewrite Hf. simpl fst.
  unfold interpretPetVideo.
  destruct ai; simpl negb; cbv iota;
    [|simpl; split; [reflexivity | split; [eauto | reflexivity]]].
  destruct fileData as [d|];
    [|simpl; split; [reflexivity | split; [eauto | reflexivity]]].
  destruct backend as [[t|]|e];
    try (simpl; split; [reflexivity | split; [eauto | reflexivity]]).
  destruct (blank (Some t)) eqn:Hb;
    [simpl; split; [reflexivity | split; [eauto | reflexivity]]|].
  simpl. split; [reflexivity|].
  repeat split; try congruence. now apply blank_false.
Qed.

Lemma upload_click_witness :
  let st := handleVideoSelect (js "walk.mp4") (mount (Some (js "p1"))) in
  let st' := interpretClick true (Some (js "AAAA"))
               (Responded (Some (js "  "))) (js "1") (js "a") (js "2") (js "b")
               st in
  videoFile (hooks st) = Some (js "walk.mp4")
  /\ isLoading (hooks st') = false
  /\ match interpretation (hooks st') with
     | Some t =>
         true = true /\ Some (js "AAAA") <> None
         /\ Responded (Some (js "  ")) = Responded (Some t)
         /\ trim t <> []
         /\ error (hooks st') = None
         /\ propCalls st'
            = propCalls st
              ++ associate (hooks st) (js "walk.mp4") t (js "1") (js "a")
                   (js "2") (js "b")
     | None =>
         (exists m, error (hooks st') = Some m
                    /\ interpretPetVideo true (js "walk.mp4")
                         (Some (js "AAAA")) (Responded (Some (js "  ")))
                       = Throw (ErrorObj m))
         /\ propCalls st' = propCalls st
     end.
Proof.
  intros st st'.
  assert (H : videoFile (hooks st) = Some (js "walk.mp4")) by reflexivity.
  split; [exact H|].
  exact (@upload_click_shows_answer_or_error true (Some (js "AAAA"))
           (Responded (Some (js "  "))) (js "1") (js "a") (js "2") (js "b")
           (js "walk.mp4") st H).
Defined.

(** X25. An upload for the option 'new' shows the interpretation and calls
    [addPet] for "Pet from <first 20 code units of the file name>..." and
    then [addInterpretationToPet] for the new id. Both calls go through the
    props of one render of [App], so the pets of [App] and the storage end
    without the new pet and without the entry. *)
Theorem upload_for_new_pet_keeps_nothing :
  forall (d t now iso now' iso' fileName : jsstring) (st : State)
         (app : App.State),
    videoFile (hooks st) = Some fileName ->
    selectedPetIdForUpload (hooks st) = js "new" ->
    blank (Some t) = false ->
    LocalStorageService.unused now (App.pets app) = true ->
    let st' := interpretClick true (Some d) (Responded (Some t))
                 now iso now' iso' st in
    let calls := [App.CallAddPet (petFromUpload fileName) now iso;
                  App.CallAddInterpretationToPet now (uploadEntry t fileName)
                    now' iso'] in
    interpretation (hooks st') = Some t
    /\ propCalls st' = propCalls st ++ calls
    /\ App.handler calls app = App.handleSavePets (App.pets app) app.
Proof.
  intros d t now iso now' iso' fileName st app Hf Hsel Hb Hu st' calls.
  assert (Hst : st' = handleInterpretPetSettled (hooks st) fileName (Return t)
                        now iso now' iso' (fst (handleInterpretPet (hooks st) st))).
  { unfold st', interpretClick. rewrite Hf. unfold interpretPetVideo.
    simpl negb. cbv iota. now rewrite Hb. }
  split; [now rewrite Hst|]. split.
  - rewrite Hst. unfold handleInterpretPetSettled, handleInterpretPet, associate.
    rewrite Hf, Hsel. reflexivity.
  - unfold calls, App.handler. simpl App.callProps.
    rewrite addInterpretationToPet_unused by exact Hu.
    apply handleSavePets_twice.
Qed.

Lemma upload_for_new_pet_witness :
  let st := handleVideoSelect (js "a-very-long-file-name-of-a-walk.mp4")
              (mount None) in
  let app := App.mount {| LocalStorageService.item := LocalStorageService.NoItem;
                          LocalStorageService.writable := true |} in
  let t := js "The dog is happy." in
  let st' := interpretClick true (Some (js "AAAA")) (Responded (Some t))
               (js "1") (js "a") (js "2") (js "b") st in
  let calls :=
    [App.CallAddPet (petFromUpload (js "a-very-long-file-name-of-a-walk.mp4"))
       (js "1") (js "a");
     App.CallAddInterpretationToPet (js "1")
       (uploadEntry t (js "a-very-long-file-name-of-a-walk.mp4"))
       (js "2") (js "b")] in
  App.newPetName (petFromUpload (js "a-very-long-file-name-of-a-walk.mp4"))
  = js "Pet from a-very-long-file-nam..."
  /\ interpretation (hooks st') = Some t
  /\ propCalls st' = propCalls st ++ calls
  /\ App.handler calls app = App.handleSavePets (App.pets app) app.
Proof.
  intros st app t st' calls.
  split; [vm_compute; reflexivity|].
  exact (@upload_for_new_pet_keeps_nothing (js "AAAA") t (js "1") (js "a")
           (js "2") (js "b") (js "a-very-long-file-name-of-a-walk.mp4") st app
           eq_refl eq_refl eq_refl eq_refl).
Defined.

End Upload.

(* ================================================================== *)
(** * The live view and the pets of App *)
(* ================================================================== *)

Section LiveViewAndApp.

Import LiveVideoView Footprint Scenario.

Lemma step_ClickSave_calls : forall w info newId,
    identifiedPetInfo (hooks w) = Some info ->
    truthy (trim (petName (hooks w))) = true ->
    storeCalls (step (ClickSave newId) w)
    = storeCalls w
      ++ [AddPet {| newName := trim (petName (hooks w));
                    newAnimalType := animalType info;
                    newBreed := breed info |};
          AddInterpretationToPet newId (identificationText info)
            Identification]
    /\ currentManagingPetId (hooks (step (ClickSave newId) w)) = Some newId.
Proof.
  intros w info newId Hi Hn. unfold step.
  destruct (commit_frame w (handle (ClickSave newId) w)) as (Hh & Hs & _).
  rewrite Hh, Hs.
  assert (E : handle (ClickSave newId) w
              = startLiveInterpretation (hooks w)
                  (set (setPetName [])
                     (set (setIdentifiedPetInfo None)
                        (set (setCurrentManagingPetId (Some newId))
                           (addInterpretationToPet newId
                              (identificationText info) Identification
                              (addPet {| newName := trim (petName (hooks w));
                                         newAnimalType := animalType info;
                                         newBreed := breed info |}
                                 (set (setError None) w))))))).
  { simpl handle. unfold handleSaveIdentifiedPet. rewrite Hi, Hn. reflexivity. }
  rewrite E.
  rewrite (proj1 (startLiveInterpretation_frame _ _)),
    (proj2 (startLiveInterpretation_frame _ _)).
  split; [|reflexivity].
  unfold addInterpretationToPet, addPet, set. cbn.
  now rewrite <- app_assoc.
Qed.

(** X26. Confirming an identification binds the session to the id that
    [addPet] returned, but [App] does not keep that pet: the two store calls
    of the confirmation leave its pets as they were, and every later
    observation of the session, stored under the bound id, is dropped as
    well. *)
Theorem confirmed_pet_is_not_kept_by_App :
  forall (w : World) (info : PetInfo) (newId iso now' iso' : jsstring)
         (app : App.State),
    identifiedPetInfo (hooks w) = Some info ->
    truthy (trim (petName (hooks w))) = true ->
    LocalStorageService.unused newId (App.pets app) = true ->
    let w' := step (ClickSave newId) w in
    let c1 := AddPet {| newName := trim (petName (hooks w));
                        newAnimalType := animalType info;
                        newBreed := breed info |} in
    let c2 := AddInterpretationToPet newId (identificationText info)
                Identification in
    let app' := App.handler [toPropCall c1 (newId, iso);
                             toPropCall c2 (now', iso')] app in
    storeCalls w' = storeCalls w ++ [c1; c2]
    /\ currentManagingPetId (hooks w') = Some newId
    /\ app' = App.handleSavePets (App.pets app) app
    /\ forall entryText context clock,
        App.handler
          [toPropCall (AddInterpretationToPet newId entryText context) clock]
          app'
        = app'.
Proof.
  intros w info newId iso now' iso' app Hi Hn Hu w' c1 c2 app'.
  destruct (@step_ClickSave_calls w info newId Hi Hn) as (Hs & Hp).
  assert (Happ : app' = App.handleSavePets (App.pets app) app).
  { unfold app', App.handler. simpl App.callProps.
    rewrite addInterpretationToPet_unused by exact Hu.
    apply handleSavePets_twice. }
  split; [exact Hs|]. split; [exact Hp|]. split; [exact Happ|].
  intros entryText context clock. rewrite Happ.
  unfold App.handler. simpl App.callProps. simpl App.pets.
  rewrite addInterpretationToPet_unused by exact Hu.
  apply handleSavePets_twice.
Qed.

Lemma confirmed_pet_witness :
  let w := run identifyRex page in
  let newId := js "1717171717171" in
  let app := App.mount {| LocalStorageService.item := LocalStorageService.NoItem;
                          LocalStorageService.writable := true |} in
  let w' := step (ClickSave newId) w in
  let c1 := AddPet {| newName := trim (petName (hooks w));
                      newAnimalType := animalType dog;
                      newBreed := breed dog |} in
  let c2 := AddInterpretationToPet newId (identificationText dog)
              Identification in
  let app' := App.handler [toPropCall c1 (newId, js "a");
                           toPropCall c2 (js "1717171717172", js "b")] app in
  identifiedPetInfo (hooks w) = Some dog
  /\ truthy (trim (petName (hooks w))) = true
  /\ LocalStorageService.unused newId (App.pets app) = true
  /\ storeCalls w' = storeCalls w ++ [c1; c2]
  /\ currentManagingPetId (hooks w') = Some newId
  /\ app' = App.handleSavePets (App.pets app) app
  /\ forall entryText context clock,
      App.handler
        [toPropCall (AddInterpretationToPet newId entryText context) clock]
        app'
      = app'.
Proof.
  intros w newId app w' c1 c2 app'.
  assert (H1 : identifiedPetInfo (hooks w) = Some dog)
    by (vm_compute; reflexivity).
  assert (H2 : truthy (trim (petName (hooks w))) = true)
    by (vm_compute; reflexivity).
  assert (H3 : LocalStorageService.unused newId (App.pets app) = true)
    by reflexivity.
  split; [exact H1|]. split; [exact H2|]. split; [exact H3|].
  exact (@confirmed_pet_is_not_kept_by_App w dog newId (js "a")
           (js "1717171717172") (js "b") app H1 H2 H3).
Defined.

(** C6. Confirming a pending identification with a name that does not trim
    to the empty string calls [addPet] once, with the trimmed name and the
    identified type and breed, and then [addInterpretationToPet] once, for
    the id that [addPet] returned, with the context Identification and the
    text "Identified as <type, or Unknown type>", then " (<breed>)" if there
    is a breed, then ". Description: <description>". The view binds that id,
    clears the pending identification, is Tracking, and one interval is
    live. But both calls go through the props of one render of [App]: the
    append maps over pets that do not hold the new pet and saves them, so
    [App] and the storage end with the pets they had, with no pet of the
    bound id and without the identification entry. *)
Theorem confirm_calls_store_but_subject_is_lost :
  forall hasClient activePetId sp es (info : PetInfo)
         (newId iso now' iso' : jsstring) (app : App.State),
    let w := run es (mount hasClient activePetId sp) in
    phase (hooks w) = AwaitingConfirmation ->
    identifiedPetInfo (hooks w) = Some info ->
    trim (petName (hooks w)) <> [] ->
    newId <> [] ->
    LocalStorageService.unused newId (App.pets app) = true ->
    let w' := step (ClickSave newId) w in
    let create := AddPet {| newName := trim (petName (hooks w));
                            newAnimalType := animalType info;
                            newBreed := breed info |} in
    let append :=
      AddInterpretationToPet newId
        (js "Identified as "
         ++ (if truthy_opt (animalType info)
             then match animalType info with Some a => a | None => [] end
             else js "Unknown type")
         ++ (match breed info with
             | Some b => if truthy b then js " (" ++ b ++ js ")" else []
             | None => []
             end)
         ++ js ". Description: "
         ++ match description info with Some d => d | None => js "undefined" end)
        Identification in
    let app' := App.handler [toPropCall create (newId, iso);
                             toPropCall append (now', iso')] app in
    storeCalls w' = storeCalls w ++ [create; append]
    /\ currentManagingPetId (hooks w') = Some newId
    /\ identifiedPetInfo (hooks w') = None
    /\ phase (hooks w') = Tracking
    /\ timers w' = [(S (nextTimer w), hooks w')]
    /\ interpretationIntervalRef w' = Some (S (nextTimer w))
    /\ App.pets app' = App.pets app
    /\ find (fun p => str_eqb (LocalStorageService.petId p) newId)
         (App.pets app') = None
    /\ LocalStorageService.loadPets (App.storage app')
       = if LocalStorageService.writable (App.storage app)
         then App.pets app
         else LocalStorageService.loadPets (App.storage app).
Proof.
  intros hasClient activePetId sp es info newId iso now' iso' app w
         Hp Hinfo Hname Hid Hu w' create append app'.
  destruct (@step_ClickSave_tracks hasClient activePetId sp es info newId
              Hp Hinfo Hname Hid) as (Hs & _ & Hc & Hi & Hph & Ht & Hr).
  assert (Happ : app' = App.handleSavePets (App.pets app) app).
  { unfold app', App.handler. simpl App.callProps.
    rewrite addInterpretationToPet_unused by exact Hu.
    apply handleSavePets_twice. }
  split; [exact Hs|]. split; [exact Hc|]. split; [exact Hi|].
  split; [exact Hph|]. split; [exact Ht|]. split; [exact Hr|].
  rewrite Happ. split; [reflexivity|]. split.
  - apply find_unused. exact Hu.
  - unfold App.handleSavePets. cbn [App.storage].
    apply loadPets_savePets.
Qed.

(** The scenario of the design document, with [App] mounted on an empty
    storage: the name is "Rex", the entry text is "Identified as Dog
    (Unknown). Description: A dog is looking at the camera.", and after the
    confirmation [App] has no pet at all. *)
Lemma confirm_subject_is_lost_witness :
  let w := run identifyRex page in
  let newId := js "1717171717171" in
  let iso := js "2024-05-31T16:08:37.171Z" in
  let now' := js "1717171717172" in
  let iso' := js "2024-05-31T16:08:37.172Z" in
  let app := App.mount {| LocalStorageService.item := LocalStorageService.NoItem;
                          LocalStorageService.writable := true |} in
  let w' := step (ClickSave newId) w in
  let create := AddPet {| newName := trim (petName (hooks w));
                          newAnimalType := animalType dog;
                          newBreed := breed dog |} in
  let append :=
    AddInterpretationToPet newId
      (js "Identified as "
       ++ (if truthy_opt (animalType dog)
           then match animalType dog with Some a => a | None => [] end
           else js "Unknown type")
       ++ (match breed dog with
           | Some b => if truthy b then js " (" ++ b ++ js ")" else []
           | None => []
           end)
       ++ js ". Description: "
       ++ match description dog with Some d => d | None => js "undefined" end)
      Identification in
  let app' := App.handler [toPropCall create (newId, iso);
                           toPropCall append (now', iso')] app in
  (phase (hooks w) = AwaitingConfirmation
   /\ identifiedPetInfo (hooks w) = Some dog
   /\ trim (petName (hooks w)) <> []
   /\ newId <> []
   /\ LocalStorageService.unused newId (App.pets app) = true)
  /\ (create = AddPet {| newName := js "Rex";
                         newAnimalType := Some (js "Dog");
                         newBreed := Some (js "Unknown") |}
      /\ append
         = AddInterpretationToPet newId
             (js "Identified as Dog (Unknown). Description: A dog is looking at the camera.")
             Identification
      /\ App.pets app' = [])
  /\ storeCalls w' = storeCalls w ++ [create; append]
  /\ currentManagingPetId (hooks w') = Some newId
  /\ identifiedPetInfo (hooks w') = None
  /\ phase (hooks w') = Tracking
  /\ timers w' = [(S (nextTimer w), hooks w')]
  /\ interpretationIntervalRef w' = Some (S (nextTimer w))
  /\ App.pets app' = App.pets app
  /\ find (fun p => str_eqb (LocalStorageService.petId p) newId)
       (App.pets app') = None
  /\ LocalStorageService.loadPets (App.storage app')
     = if LocalStorageService.writable (App.storage app)
       then App.pets app
       else LocalStorageService.loadPets (App.storage app).
Proof.
  intros w newId iso now' iso' app w' create append app'.
  assert (H1 : phase (hooks w) = AwaitingConfirmation)
    by (vm_compute; reflexivity).
  assert (H2 : identifiedPetInfo (hooks w) = Some dog)
    by (vm_compute; reflexivity).
  assert (H3 : trim (petName (hooks w)) <> [])
    by (vm_compute; discriminate).
  assert (H4 : newId <> []) by discriminate.
  assert (H5 : LocalStorageService.unused newId (App.pets app) = true)
    by reflexivity.
  split; [repeat split; assumption|].
  split; [vm_compute; repeat split; reflexivity|].
  exact (@confirm_calls_store_but_subject_is_lost true None
           (SpeechService.load true twoVoices) identifyRex dog newId iso now'
           iso' app H1 H2 H3 H4 H5).
Defined.

End LiveViewAndApp.
